(** * UpProvider: a model of [src/components/upProvider.tsx]

    The component mirrors the state of a browser-injected wallet provider
    into React state and exposes it through a React context.  The model
    below follows the source function by function:

    - the hooks' state cells ([useState]) are the record [State];
    - the two [useMemo] cells and the dependency array of [useEffect] are
      explicit fields of [World], compared the way React compares them
      (object identity for clients, value for strings and numbers);
    - every run of the effect is an [EffectRun]: its [mounted] variable and
      the point at which its asynchronous [init] is suspended;
    - the closures [accountsChanged], [contextAccountsChanged] and
      [chainChanged] are values of [Handler] that carry the variables they
      captured from the render that created them;
    - the provider object is the record [UPClientProvider]: the listeners
      registered on it, its [contextAccounts] property, and a log of what
      the component does with it (the methods it calls, the property it
      reads, the function it passes the object to);
    - [chainId] is a JavaScript number, [NaN] included.

    Code runs in a small state-and-exception monad [M]; one [Action] of the
    environment (React renders, the provider emits, a request settles, a
    consumer calls a setter) is one [step]. *)

From Stdlib Require Import ZArith List String Bool Lia PeanoNat.
Import ListNotations.
Local Open Scope string_scope.
Local Open Scope list_scope.


(** ** Data *)

(** [`0x${string}`] *)
Definition Address := string.

(** The value carried by a rejected promise. *)
Definition JsError := string.

(** A JavaScript number, as far as this component can tell numbers apart:
    an integer, or [NaN], which is what [Number(...)] makes of an answer
    that is not numeric.  The other numbers are not distinguished: a
    fraction or an infinity passes every test below as a nonzero integer
    other than 42 does, and [-0] as [0] does, but for [Object.is(0, -0)],
    on which only the re-computation of a [null] client depends. *)
Inductive number :=
| Num (z : Z)
| NaN.

(** [if (n)]: neither [0] nor [NaN]. *)
Definition truthy (n : number) : bool :=
  match n with
  | Num z => negb (z =? 0)%Z
  | NaN => false
  end.

(** [a === b]: [NaN] is equal to nothing. *)
Definition strict_equal (a b : number) : bool :=
  match a, b with
  | Num x, Num y => (x =? y)%Z
  | _, _ => false
  end.

(** [Object.is(a, b)], with which React compares dependencies: [NaN] is
    itself. *)
Definition Object_is (a b : number) : bool :=
  match a, b with
  | Num x, Num y => (x =? y)%Z
  | NaN, NaN => true
  | _, _ => false
  end.

(** The settlement of a promise returned by [provider.request]. *)
Inductive Result (A : Type) : Type :=
| Fulfilled (a : A)
| Rejected (e : JsError).
Arguments Fulfilled {A} a.
Arguments Rejected {A} e.

(** [viem/chains] *)
Inductive Chain := lukso | luksoTestnet.

(** An object returned by [createWalletClient] / [createPublicClient].
    [oid] is the identity of the object: React compares the [client]
    dependency with [Object.is].  Both are built over
    [custom(provider)]: the client holds the provider object, and what it
    asks of the provider is asked when a descendant calls a method of the
    client; the component itself calls none. *)
Record Client := { chain : Chain; oid : nat }.

(** The three closures created by one run of the effect, with the variables
    of the enclosing render they capture. *)
Inductive Handler :=
| accountsChanged (captured_contextAccount : option Address)
| contextAccountsChanged (captured_account : option Address)
| chainChanged.

(** A function registered with [provider.on]: [l_owner] is the effect run
    that created the closure (two runs create distinct function objects). *)
Record Listener := { l_event : string; l_owner : nat; l_fn : Handler }.

(** The calls the component makes on the provider object. *)
Inductive ProviderCall :=
| CallRequest (method : string)
| CallOn (event : string)
| CallRemoveListener (event : string).

(** What else the component does with the provider object: a property it
    reads, a function it passes the object to. *)
Inductive ProviderUse :=
| ReadProperty (name : string)
| PassedTo (callee : string).

(** The object returned by [createClientUPProvider()]: the listeners on it,
    its [contextAccounts] property, and what the component has done with
    it: the methods it has called ([p_calls]) and the other uses it has
    made of the object ([p_uses]). *)
Record UPClientProvider := {
  p_listeners : list Listener;
  p_contextAccounts : list Address;
  p_calls : list ProviderCall;
  p_uses : list ProviderUse
}.

(** The six [useState] cells of [UpProvider]. *)
Record State := {
  chainId : number;
  accounts : list Address;
  contextAccounts : list Address;
  walletConnected : bool;
  selectedAddress : option Address;
  isSearching : bool
}.

(** The object built by the last [useMemo] of [UpProvider] and passed to
    [UpContext.Provider].  The two setters it also carries are the
    [Consumer] actions below. *)
Record ContextValue := {
  v_provider : bool;
  v_client : option Client;
  v_chainId : number;
  v_readClient : option Client;
  v_accounts : list Address;
  v_contextAccounts : list Address;
  v_walletConnected : bool;
  v_selectedAddress : option Address;
  v_isSearching : bool
}.

(** How an [async] function ended. *)
Inductive Completion := Normal | Throw (e : JsError).

(** Where the [init] of an effect run stands: suspended at its first
    [await], suspended at its second [await] (with the local [_accounts]),
    or settled. *)
Inductive InitState :=
| AwaitAccounts
| AwaitChainId (_accounts : list Address)
| Settled (c : Completion).

(** One run of the effect: its local [mounted], its [init], and the
    [account] and [contextAccount] of the render it closes over. *)
Record EffectRun := {
  mounted : bool;
  init_state : InitState;
  account : option Address;
  contextAccount : option Address
}.

(** The dependency array [[client, account, contextAccount]]. *)
Definition Deps : Type := option Client * option Address * option Address.

Inductive Lifecycle := NotMounted | Mounted | Unmounted.

Record World := {
  provider : option UPClientProvider;      (* the module-level [provider] *)
  state : State;
  client_memo : option (number * option Client);      (* useMemo: deps, value *)
  readClient_memo : option (number * option Client);
  effect_deps : option Deps;               (* deps of the last render *)
  runs : list EffectRun;                   (* run [k] is the [k]-th entry *)
  cleanup : option nat;                    (* run whose cleanup is pending *)
  next_oid : nat;
  console : list JsError;                  (* console.error *)
  data : option ContextValue;              (* value given to the context *)
  lifecycle : Lifecycle
}.

(** ** Field updates *)

Definition set_provider (p : option UPClientProvider) (w : World) : World :=
  {| provider := p; state := state w; client_memo := client_memo w;
     readClient_memo := readClient_memo w; effect_deps := effect_deps w;
     runs := runs w; cleanup := cleanup w; next_oid := next_oid w;
     console := console w; data := data w; lifecycle := lifecycle w |}.

Definition set_state (s : State) (w : World) : World :=
  {| provider := provider w; state := s; client_memo := client_memo w;
     readClient_memo := readClient_memo w; effect_deps := effect_deps w;
     runs := runs w; cleanup := cleanup w; next_oid := next_oid w;
     console := console w; data := data w; lifecycle := lifecycle w |}.

Definition set_client_memo (m : option (number * option Client)) (w : World) : World :=
  {| provider := provider w; state := state w; client_memo := m;
     readClient_memo := readClient_memo w; effect_deps := effect_deps w;
     runs := runs w; cleanup := cleanup w; next_oid := next_oid w;
     console := console w; data := data w; lifecycle := lifecycle w |}.

Definition set_readClient_memo (m : option (number * option Client)) (w : World) : World :=
  {| provider := provider w; state := state w; client_memo := client_memo w;
     readClient_memo := m; effect_deps := effect_deps w;
     runs := runs w; cleanup := cleanup w; next_oid := next_oid w;
     console := console w; data := data w; lifecycle := lifecycle w |}.

Definition set_effect_deps (d : option Deps) (w : World) : World :=
  {| provider := provider w; state := state w; client_memo := client_memo w;
     readClient_memo := readClient_memo w; effect_deps := d;
     runs := runs w; cleanup := cleanup w; next_oid := next_oid w;
     console := console w; data := data w; lifecycle := lifecycle w |}.

Definition set_runs (r : list EffectRun) (w : World) : World :=
  {| provider := provider w; state := state w; client_memo := client_memo w;
     readClient_memo := readClient_memo w; effect_deps := effect_deps w;
     runs := r; cleanup := cleanup w; next_oid := next_oid w;
     console := console w; data := data w; lifecycle := lifecycle w |}.

Definition set_cleanup (c : option nat) (w : World) : World :=
  {| provider := provider w; state := state w; client_memo := client_memo w;
     readClient_memo := readClient_memo w; effect_deps := effect_deps w;
     runs := runs w; cleanup := c; next_oid := next_oid w;
     console := console w; data := data w; lifecycle := lifecycle w |}.

Definition set_next_oid (n : nat) (w : World) : World :=
  {| provider := provider w; state := state w; client_memo := client_memo w;
     readClient_memo := readClient_memo w; effect_deps := effect_deps w;
     runs := runs w; cleanup := cleanup w; next_oid := n;
     console := console w; data := data w; lifecycle := lifecycle w |}.

Definition set_console (c : list JsError) (w : World) : World :=
  {| provider := provider w; state := state w; client_memo := client_memo w;
     readClient_memo := readClient_memo w; effect_deps := effect_deps w;
     runs := runs w; cleanup := cleanup w; next_oid := next_oid w;
     console := c; data := data w; lifecycle := lifecycle w |}.

Definition set_data (d : option ContextValue) (w : World) : World :=
  {| provider := provider w; state := state w; client_memo := client_memo w;
     readClient_memo := readClient_memo w; effect_deps := effect_deps w;
     runs := runs w; cleanup := cleanup w; next_oid := next_oid w;
     console := console w; data := d; lifecycle := lifecycle w |}.

Definition set_lifecycle (l : Lifecycle) (w : World) : World :=
  {| provider := provider w; state := state w; client_memo := client_memo w;
     readClient_memo := readClient_memo w; effect_deps := effect_deps w;
     runs := runs w; cleanup := cleanup w; next_oid := next_oid w;
     console := console w; data := data w; lifecycle := l |}.

(** ** The monad of component code: state and exceptions *)

Inductive Outcome (A : Type) : Type :=
| Return (a : A)
| Raise (e : JsError).
Arguments Return {A} a.
Arguments Raise {A} e.

Definition M (A : Type) : Type := World -> World * Outcome A.

Definition ret {A} (a : A) : M A := fun w => (w, Return a).

Definition bind {A B} (m : M A) (f : A -> M B) : M B :=
  fun w => match m w with
           | (w', Return a) => f a w'
           | (w', Raise e) => (w', Raise e)
           end.

Definition throw {A} (e : JsError) : M A := fun w => (w, Raise e).

(** [try { body } catch (error) { handler(error) }] *)
Definition try_catch {A} (body : M A) (handler : JsError -> M A) : M A :=
  fun w => match body w with
           | (w', Return a) => (w', Return a)
           | (w', Raise e) => handler e w'
           end.

Definition gets {A} (f : World -> A) : M A := fun w => (w, Return (f w)).
Definition modify (f : World -> World) : M unit := fun w => (f w, Return tt).

Notation "x <- m ;; k" := (bind m (fun x => k))
  (at level 61, m at next level, right associativity).
Notation "m ;; k" := (bind m (fun _ => k))
  (at level 61, right associativity).

(** The world a computation leaves behind. *)
Definition exec {A} (m : M A) (w : World) : World := fst (m w).

(** ** Small helpers *)

(** [x != null] for a value that is either present or [undefined]. *)
Definition is_some {A} (o : option A) : bool :=
  match o with Some _ => true | None => false end.

Definition option_eqb {A} (eqb : A -> A -> bool) (a b : option A) : bool :=
  match a, b with
  | Some x, Some y => eqb x y
  | None, None => true
  | _, _ => false
  end.

Fixpoint update_nth {A} (k : nat) (f : A -> A) (l : list A) : list A :=
  match l, k with
  | [], _ => []
  | x :: t, O => f x :: t
  | x :: t, S k' => x :: update_nth k' f t
  end.

Fixpoint remove_first {A} (test : A -> bool) (l : list A) : list A :=
  match l with
  | [] => []
  | x :: t => if test x then t else x :: remove_first test t
  end.

Fixpoint for_each {A} (f : A -> M unit) (l : list A) : M unit :=
  match l with
  | [] => ret tt
  | x :: t => f x ;; for_each f t
  end.

(** ** The [useState] setters *)

Definition setChainId (n : number) : M unit :=
  modify (fun w => let s := state w in set_state
    {| chainId := n; accounts := accounts s;
       contextAccounts := contextAccounts s;
       walletConnected := walletConnected s;
       selectedAddress := selectedAddress s; isSearching := isSearching s |} w).

Definition setAccounts (l : list Address) : M unit :=
  modify (fun w => let s := state w in set_state
    {| chainId := chainId s; accounts := l;
       contextAccounts := contextAccounts s;
       walletConnected := walletConnected s;
       selectedAddress := selectedAddress s; isSearching := isSearching s |} w).

Definition setContextAccounts (l : list Address) : M unit :=
  modify (fun w => let s := state w in set_state
    {| chainId := chainId s; accounts := accounts s;
       contextAccounts := l;
       walletConnected := walletConnected s;
       selectedAddress := selectedAddress s; isSearching := isSearching s |} w).

Definition setWalletConnected (b : bool) : M unit :=
  modify (fun w => let s := state w in set_state
    {| chainId := chainId s; accounts := accounts s;
       contextAccounts := contextAccounts s;
       walletConnected := b;
       selectedAddress := selectedAddress s; isSearching := isSearching s |} w).

Definition setSelectedAddress (a : option Address) : M unit :=
  modify (fun w => let s := state w in set_state
    {| chainId := chainId s; accounts := accounts s;
       contextAccounts := contextAccounts s;
       walletConnected := walletConnected s;
       selectedAddress := a; isSearching := isSearching s |} w).

Definition setIsSearching (b : bool) : M unit :=
  modify (fun w => let s := state w in set_state
    {| chainId := chainId s; accounts := accounts s;
       contextAccounts := contextAccounts s;
       walletConnected := walletConnected s;
       selectedAddress := selectedAddress s; isSearching := b |} w).

Definition console_error (e : JsError) : M unit :=
  modify (fun w => set_console (console w ++ [e]) w).

(** ** The provider object *)

(** Dereferencing a [null] provider. *)
Definition TypeError : JsError := "TypeError".

Definition with_provider {A} (f : UPClientProvider -> UPClientProvider * A) : M A :=
  fun w => match provider w with
           | None => (w, Raise TypeError)
           | Some p => let (p', a) := f p in (set_provider (Some p') w, Return a)
           end.

Definition log_call (c : ProviderCall) (p : UPClientProvider) : UPClientProvider :=
  {| p_listeners := p_listeners p; p_contextAccounts := p_contextAccounts p;
     p_calls := p_calls p ++ [c]; p_uses := p_uses p |}.

Definition log_use (u : ProviderUse) (p : UPClientProvider) : UPClientProvider :=
  {| p_listeners := p_listeners p; p_contextAccounts := p_contextAccounts p;
     p_calls := p_calls p; p_uses := p_uses p ++ [u] |}.

Definition set_listeners (l : list Listener) (p : UPClientProvider) : UPClientProvider :=
  {| p_listeners := l; p_contextAccounts := p_contextAccounts p;
     p_calls := p_calls p; p_uses := p_uses p |}.

Definition set_contextAccounts (l : list Address) (p : UPClientProvider) : UPClientProvider :=
  {| p_listeners := p_listeners p; p_contextAccounts := l;
     p_calls := p_calls p; p_uses := p_uses p |}.

Definition Handler_eqb (a b : Handler) : bool :=
  match a, b with
  | accountsChanged x, accountsChanged y => option_eqb String.eqb x y
  | contextAccountsChanged x, contextAccountsChanged y => option_eqb String.eqb x y
  | chainChanged, chainChanged => true
  | _, _ => false
  end.

(** Is [l] the function object [fn] of run [owner], registered for [event]? *)
Definition is_listener (event : string) (owner : nat) (fn : Handler) (l : Listener) : bool :=
  String.eqb (l_event l) event && Nat.eqb (l_owner l) owner && Handler_eqb (l_fn l) fn.

(** [provider.request(method)]: the call is recorded; its promise settles in
    a later step. *)
Definition request (method : string) : M unit :=
  with_provider (fun p => (log_call (CallRequest method) p, tt)).

(** [provider.on(event, fn)] *)
Definition on (event : string) (owner : nat) (fn : Handler) : M unit :=
  with_provider (fun p =>
    (log_call (CallOn event)
       (set_listeners (p_listeners p ++
          [{| l_event := event; l_owner := owner; l_fn := fn |}]) p), tt)).

(** [provider.removeListener(event, fn)] *)
Definition removeListener (event : string) (owner : nat) (fn : Handler) : M unit :=
  with_provider (fun p =>
    (log_call (CallRemoveListener event)
       (set_listeners (remove_first (is_listener event owner fn) (p_listeners p)) p), tt)).

(** [provider.contextAccounts] *)
Definition get_contextAccounts : M (list Address) :=
  with_provider (fun p =>
    (log_use (ReadProperty "contextAccounts") p, p_contextAccounts p)).

(** [custom(provider)]: the provider object is handed to viem, which makes
    a transport of it. *)
Definition custom : M unit :=
  with_provider (fun p => (log_use (PassedTo "custom") p, tt)).

(** [await promise] once the promise has settled. *)
Definition await {A} (r : Result A) : M A :=
  match r with
  | Fulfilled a => ret a
  | Rejected e => throw e
  end.

(** ** Effect runs *)

(** [let mounted = true] of a new run of the effect. *)
Definition new_run (a c : option Address) : M nat :=
  fun w => (set_runs (runs w ++ [{| mounted := true; init_state := Settled Normal;
                                    account := a; contextAccount := c |}]) w,
            Return (List.length (runs w))).

Definition get_mounted (k : nat) : M bool :=
  gets (fun w => match nth_error (runs w) k with
                 | Some r => mounted r
                 | None => false
                 end).

Definition set_mounted (k : nat) (b : bool) : M unit :=
  modify (fun w => set_runs
    (update_nth k (fun r => {| mounted := b; init_state := init_state r;
                             account := account r;
                             contextAccount := contextAccount r |}) (runs w)) w).

Definition set_init (k : nat) (s : InitState) : M unit :=
  modify (fun w => set_runs
    (update_nth k (fun r => {| mounted := mounted r; init_state := s;
                             account := account r;
                             contextAccount := contextAccount r |}) (runs w)) w).

(** ** [init]

    The body of the [try] block, cut at its two [await]s. *)

(** From the entry of [init] to the first [await]. *)
Definition init_entry (client : option Client) : M InitState :=
  p <- gets provider ;;
  if negb (is_some client) || negb (is_some p) then ret (Settled Normal)
  else
    request "eth_accounts" ;;
    ret AwaitAccounts.

(** From the first [await] to the second. *)
Definition init_after_accounts (k : nat) (r : Result (list Address)) : M InitState :=
  _accounts <- await r ;;
  m <- get_mounted k ;;
  if negb m then ret (Settled Normal)
  else
    setAccounts _accounts ;;
    request "eth_chainId" ;;
    ret (AwaitChainId _accounts).

(** From the second [await] to the end.  The answer [r] is what
    [Number(...)] has made of the response: any number, [NaN] included. *)
Definition init_after_chainId (k : nat) (_accounts : list Address)
    (r : Result number)
  : M InitState :=
  _chainId <- await r ;;
  m <- get_mounted k ;;
  if negb m then ret (Settled Normal)
  else
    setChainId _chainId ;;
    _contextAccounts <- get_contextAccounts ;;
    m' <- get_mounted k ;;
    if negb m' then ret (Settled Normal)
    else
      setContextAccounts _contextAccounts ;;
      setWalletConnected
        (is_some (hd_error _accounts) && is_some (hd_error _contextAccounts)) ;;
      ret (Settled Normal).

(** [catch (error) { console.error(error); }] *)
Definition init_catch (e : JsError) : M InitState :=
  console_error e ;;
  ret (Settled Normal).

(** An [async] function never throws into its caller: what escapes its body
    rejects the promise it returned. *)
Definition async (body : M InitState) : M InitState :=
  fun w => match body w with
           | (w', Return s) => (w', Return s)
           | (w', Raise e) => (w', Return (Settled (Throw e)))
           end.

(** One stretch of [init] of run [k], inside its [try]/[catch]. *)
Definition init (k : nat) (body : M InitState) : M unit :=
  s <- async (try_catch body init_catch) ;;
  set_init k s.

(** ** The effect *)

(** The body of [useEffect], run with the [client], [account] and
    [contextAccount] of the render that scheduled it. *)
Definition effect (d : Deps) : M unit :=
  let '(client, account, contextAccount) := d in
  k <- new_run account contextAccount ;;
  init k (init_entry client) ;;
  p <- gets provider ;;
  if is_some p then
    on "accountsChanged" k (accountsChanged contextAccount) ;;
    on "chainChanged" k chainChanged ;;
    on "contextAccountsChanged" k (contextAccountsChanged account) ;;
    modify (set_cleanup (Some k))
  else
    modify (set_cleanup None).

(** The function returned by run [k] of the effect. *)
Definition effect_cleanup (k : nat) : M unit :=
  r <- gets (fun w => nth_error (runs w) k) ;;
  match r with
  | None => ret tt
  | Some r =>
      set_mounted k false ;;
      removeListener "accountsChanged" k (accountsChanged (contextAccount r)) ;;
      removeListener "contextAccountsChanged" k
        (contextAccountsChanged (account r)) ;;
      removeListener "chainChanged" k chainChanged
  end.

(** React runs the cleanup of the previous run, when it returned one. *)
Definition run_pending_cleanup : M unit :=
  c <- gets cleanup ;;
  match c with
  | Some k => effect_cleanup k ;; modify (set_cleanup None)
  | None => ret tt
  end.

(** [Object.is] on the entries of the dependency array. *)
Definition same_client (a b : option Client) : bool :=
  option_eqb (fun x y => Nat.eqb (oid x) (oid y)) a b.

Definition same_deps (a b : Deps) : bool :=
  let '(c1, a1, x1) := a in
  let '(c2, a2, x2) := b in
  same_client c1 c2 && option_eqb String.eqb a1 a2 && option_eqb String.eqb x1 x2.

Definition useEffect (d : Deps) : M unit :=
  old <- gets effect_deps ;;
  modify (set_effect_deps (Some d)) ;;
  match old with
  | None => effect d
  | Some d0 =>
      if same_deps d0 d then ret tt
      else run_pending_cleanup ;; effect d
  end.

(** ** The two clients *)

(** The chain chosen by the callbacks of the two [useMemo]s, [None] when
    they return [null]: [provider && chainId], then [chainId === 42]. *)
Definition client_chain (p : option UPClientProvider) (chainId : number)
  : option Chain :=
  if is_some p && truthy chainId then
    Some (if strict_equal chainId (Num 42) then lukso else luksoTestnet)
  else None.

(** [createWalletClient] / [createPublicClient], once their argument has
    been evaluated: a new object. *)
Definition createClient (c : Chain) : M Client :=
  fun w => (set_next_oid (S (next_oid w)) w,
            Return {| chain := c; oid := next_oid w |}).

(** [useMemo(callback, [chainId])] on the memo cell read by [cell] and
    written by [store]. *)
Definition useMemo (cell : World -> option (number * option Client))
    (store : option (number * option Client) -> World -> World) (chainId : number)
  : M (option Client) :=
  let compute :=
    p <- gets provider ;;
    v <- match client_chain p chainId with
         | Some c => custom ;; x <- createClient c ;; ret (Some x)
         | None => ret None
         end ;;
    modify (store (Some (chainId, v))) ;;
    ret v in
  m <- gets cell ;;
  match m with
  | Some (d, v) => if Object_is d chainId then ret v else compute
  | None => compute
  end.

(** ** The component function *)

(** One render of [UpProvider] followed by the commit of its effect. *)
Definition UpProvider : M unit :=
  s <- gets state ;;
  let account := hd_error (accounts s) in
  let contextAccount := hd_error (contextAccounts s) in
  client <- useMemo client_memo set_client_memo (chainId s) ;;
  readClient <- useMemo readClient_memo set_readClient_memo (chainId s) ;;
  p <- gets provider ;;
  modify (set_data (Some
    {| v_provider := is_some p;
       v_client := client;
       v_chainId := chainId s;
       v_readClient := readClient;
       v_accounts := accounts s;
       v_contextAccounts := contextAccounts s;
       v_walletConnected := walletConnected s;
       v_selectedAddress := selectedAddress s;
       v_isSearching := isSearching s |})) ;;
  useEffect (client, account, contextAccount).

(** ** Provider events *)

Inductive ProviderEvent :=
| EvAccountsChanged (_accounts : list Address)
| EvChainChanged (_chainId : number)
| EvContextAccountsChanged (_accounts : list Address).

Definition event_name (e : ProviderEvent) : string :=
  match e with
  | EvAccountsChanged _ => "accountsChanged"
  | EvChainChanged _ => "chainChanged"
  | EvContextAccountsChanged _ => "contextAccountsChanged"
  end.

(** The bodies of the three handlers.  A handler is only ever registered
    under its own event name, so the last case does not arise. *)
Definition call_handler (e : ProviderEvent) (fn : Handler) : M unit :=
  match fn, e with
  | accountsChanged contextAccount, EvAccountsChanged _accounts =>
      setAccounts _accounts ;;
      setWalletConnected (is_some (hd_error _accounts) && is_some contextAccount)
  | contextAccountsChanged account, EvContextAccountsChanged _accounts =>
      setContextAccounts _accounts ;;
      setWalletConnected (is_some account && is_some (hd_error _accounts))
  | chainChanged, EvChainChanged _chainId =>
      setChainId _chainId
  | _, _ => ret tt
  end.

(** The provider calls, in registration order, the listeners of the event. *)
Definition emit (e : ProviderEvent) : M unit :=
  p <- gets provider ;;
  match p with
  | None => ret tt
  | Some p =>
      for_each (fun l => call_handler e (l_fn l))
        (filter (fun l => String.eqb (l_event l) (event_name e)) (p_listeners p))
  end.

(** ** Steps *)

Inductive ConsumerCall :=
| CallSetSelectedAddress (a : option Address)
| CallSetIsSearching (b : bool).

Inductive Action :=
| Render                                       (* React renders and commits *)
| Unmount
| Emit (e : ProviderEvent)                     (* the provider fires an event *)
| ProviderContext (l : list Address)           (* provider.contextAccounts changes *)
| ResolveAccounts (k : nat) (r : Result (list Address))
| ResolveChainId (k : nat) (r : Result number)
| Consumer (c : ConsumerCall).                 (* a descendant calls a setter *)

(** The promise awaited by run [k] settles and its [init] resumes. *)
Definition resume_accounts (k : nat) (r : Result (list Address)) : M unit :=
  x <- gets (fun w => nth_error (runs w) k) ;;
  match x with
  | Some {| init_state := AwaitAccounts |} => init k (init_after_accounts k r)
  | _ => ret tt
  end.

Definition resume_chainId (k : nat) (r : Result number) : M unit :=
  x <- gets (fun w => nth_error (runs w) k) ;;
  match x with
  | Some {| init_state := AwaitChainId _accounts |} =>
      init k (init_after_chainId k _accounts r)
  | _ => ret tt
  end.

(** One step of one instance of the component.  The world is that of a
    single instance: React renders an instance from its mount to its
    unmount, and cleans it up once.  A [Render] or an [Unmount] of an
    instance that is already unmounted, and an [Unmount] before the mount,
    do not occur in React; [handle] leaves the world as it is there, and no
    property of the component is to be read off these cases.  A setter
    called by a descendant writes the state of a mounted instance; React
    ignores the call otherwise. *)
Definition handle (a : Action) : M unit :=
  match a with
  | Render =>
      l <- gets lifecycle ;;
      match l with
      | Unmounted => ret tt
      | _ => modify (set_lifecycle Mounted) ;; UpProvider
      end
  | Unmount =>
      l <- gets lifecycle ;;
      match l with
      | Mounted => run_pending_cleanup ;; modify (set_lifecycle Unmounted)
      | _ => ret tt
      end
  | Emit e => emit e
  | ProviderContext l =>
      modify (fun w => match provider w with
                       | Some p => set_provider (Some (set_contextAccounts l p)) w
                       | None => w
                       end)
  | ResolveAccounts k r => resume_accounts k r
  | ResolveChainId k r => resume_chainId k r
  | Consumer c =>
      l <- gets lifecycle ;;
      match l, c with
      | Mounted, CallSetSelectedAddress a => setSelectedAddress a
      | Mounted, CallSetIsSearching b => setIsSearching b
      | _, _ => ret tt
      end
  end.

Definition step (w : World) (a : Action) : World := exec (handle a) w.

Definition run_trace (acts : list Action) (w : World) : World :=
  fold_left step acts w.

(** [createClientUPProvider()] *)
Definition createClientUPProvider : UPClientProvider :=
  {| p_listeners := []; p_contextAccounts := []; p_calls := [];
     p_uses := [] |}.

(** The world when the module has been loaded and nothing rendered yet;
    [window] tells whether [typeof window !== "undefined"]. *)
Definition initial (window : bool) : World :=
  {| provider := if window then Some createClientUPProvider else None;
     state := {| chainId := Num 0; accounts := []; contextAccounts := [];
                 walletConnected := false; selectedAddress := None;
                 isSearching := false |};
     client_memo := None; readClient_memo := None; effect_deps := None;
     runs := []; cleanup := None; next_oid := 0; console := [];
     data := None; lifecycle := NotMounted |}.

(** A history of the component: what it has become after [acts]. *)
Definition after (window : bool) (acts : list Action) : World :=
  run_trace acts (initial window).

(** ** The hook [useUpProvider] *)

(** What lies between a component and the root of the React tree, seen from
    a hook: providers of [UpContext] and everything else. *)
Inductive Element :=
| UpContext_Provider (value : ContextValue)
| OtherElement.

(** [useContext(UpContext)]: the value of the nearest provider among the
    ancestors (nearest first), [undefined] without one, as
    [createContext(undefined)] says. *)
Fixpoint useContext (ancestors : list Element) : option ContextValue :=
  match ancestors with
  | [] => None
  | UpContext_Provider value :: _ => Some value
  | OtherElement :: outer => useContext outer
  end.

Definition useUpProvider (ancestors : list Element) : Outcome ContextValue :=
  match useContext ancestors with
  | None => Raise "useUpProvider must be used within a UpProvider"
  | Some context => Return context
  end.

(** The ancestors that [UpProvider] gives to its [children]: the [div] and
    the [UpContext.Provider] it returns, inside its own ancestors. *)
Definition children_ancestors (w : World) (outer : list Element) : list Element :=
  match data w with
  | Some d => OtherElement :: UpContext_Provider d :: outer
  | None => outer
  end.

(** ** What the component has registered and called on the provider *)

Definition listeners (w : World) : list Listener :=
  match provider w with Some p => p_listeners p | None => [] end.

Definition calls (w : World) : list ProviderCall :=
  match provider w with Some p => p_calls p | None => [] end.

(** What else the component has done with the provider object. *)
Definition uses (w : World) : list ProviderUse :=
  match provider w with Some p => p_uses p | None => [] end.

(** The three listeners that run [k] of the effect registers. *)
Definition registered (k : nat) (a c : option Address) : list Listener :=
  [ {| l_event := "accountsChanged"; l_owner := k; l_fn := accountsChanged c |};
    {| l_event := "chainChanged"; l_owner := k; l_fn := chainChanged |};
    {| l_event := "contextAccountsChanged"; l_owner := k;
       l_fn := contextAccountsChanged a |} ].

(** * Reasoning about component code *)

(** ** A program logic for [M] *)

(** [hoare P m Q E]: from a world satisfying [P], [m] ends in a world
    satisfying [Q] when it returns and [E] when it raises. *)
Definition hoare {A} (P : World -> Prop) (m : M A)
    (Q : A -> World -> Prop) (E : JsError -> World -> Prop) : Prop :=
  forall w, P w ->
    match m w with
    | (w', Return a) => Q a w'
    | (w', Raise e) => E e w'
    end.

(** [m] keeps [P] whenever it returns, and ends in [E] when it raises. *)
Definition keeps {A} (P : World -> Prop) (E : JsError -> World -> Prop)
    (m : M A) : Prop :=
  hoare P m (fun _ => P) E.

(** [m] keeps [P], however it ends. *)
Definition preserves {A} (P : World -> Prop) (m : M A) : Prop :=
  keeps P (fun _ => P) m.

Definition known_event (e : string) : Prop :=
  e = "accountsChanged" \/ e = "chainChanged" \/ e = "contextAccountsChanged".

Definition allowed_call (c : ProviderCall) : Prop :=
  match c with
  | CallRequest m => m = "eth_accounts" \/ m = "eth_chainId"
  | CallOn e => known_event e
  | CallRemoveListener e => known_event e
  end.

Definition allowed_use (u : ProviderUse) : Prop :=
  u = ReadProperty "contextAccounts" \/ u = PassedTo "custom".

(** The context value tells its consumers whether there is a provider: it
    carries the module's [provider], an object or [null]. *)
Definition exposes_provider (b : bool) (w : World) : Prop :=
  is_some (provider w) = b /\
  forall d, data w = Some d -> v_provider d = b.

(** The provider is dealt with through the two requests and the three
    events alone: these are the calls made on it, and no other use is made
    of the object. *)
Definition only_requests_and_events (w : World) : Prop :=
  Forall allowed_call (calls w) /\ uses w = [].

(** ** Invariants of the effect *)

(** The listeners on the provider are those of the run whose cleanup is
    pending, and that run is still mounted. *)
Definition wired (w : World) : Prop :=
  match cleanup w with
  | Some k =>
      exists r p, nth_error (runs w) k = Some r /\ mounted r = true /\
                  provider w = Some p /\
                  p_listeners p = registered k (account r) (contextAccount r)
  | None => listeners w = []
  end.

(** How the bookkeeping of React relates to the life of the component. *)
Definition coupled (w : World) : Prop :=
  (lifecycle w = NotMounted -> effect_deps w = None) /\
  (effect_deps w = None -> cleanup w = None) /\
  (lifecycle w = Mounted ->
     effect_deps w <> None /\
     (is_some (provider w) = true -> is_some (cleanup w) = true)).

Definition effect_invariant (w : World) : Prop := wired w /\ coupled w.

(** What [useEffect] relies on when the component function runs. *)
Definition effect_ready (w : World) : Prop :=
  wired w /\ (effect_deps w = None -> cleanup w = None) /\
  (effect_deps w <> None -> is_some (provider w) = true ->
   is_some (cleanup w) = true) /\
  lifecycle w = Mounted.

(** The chains of the clients held by the memo cells and by the context
    value are those that the callbacks compute from their [chainId]; [q] is
    the provider handle the module was loaded with. *)
Definition memo_ok (q : option UPClientProvider) (m : option (number * option Client))
  : Prop :=
  forall d v, m = Some (d, v) -> option_map chain v = client_chain q d.

Definition data_ok (q : option UPClientProvider) (x : option ContextValue)
  : Prop :=
  forall d, x = Some d ->
    option_map chain (v_client d) = client_chain q (v_chainId d) /\
    option_map chain (v_readClient d) = client_chain q (v_chainId d).

Definition clients_ok (q : option UPClientProvider) (w : World) : Prop :=
  is_some (provider w) = is_some q /\
  memo_ok q (client_memo w) /\ memo_ok q (readClient_memo w) /\
  data_ok q (data w).

(** ** Notions used by the statements *)

(** The derived flag says what the two arrays hold. *)
Definition connection_reflects_arrays (s : State) : Prop :=
  walletConnected s = true <->
  is_some (hd_error (accounts s)) = true /\
  is_some (hd_error (contextAccounts s)) = true.

(** The handlers on the provider were created by a render that saw the
    first entries the two arrays have now. *)
Definition handlers_fresh (w : World) : Prop :=
  exists k r, cleanup w = Some k /\ nth_error (runs w) k = Some r /\
              account r = hd_error (accounts (state w)) /\
              contextAccount r = hd_error (contextAccounts (state w)).

(** Run [k] is suspended at one of the two requests of [init]. *)
Definition awaiting (w : World) (k : nat) : bool :=
  match nth_error (runs w) k with
  | Some {| init_state := Settled _ |} => false
  | Some _ => true
  | None => false
  end.

(** The request that run [k] is waiting for is rejected with [e]. *)
Definition reject (k : nat) (e : JsError) (w : World) : World :=
  match nth_error (runs w) k with
  | Some {| init_state := AwaitAccounts |} =>
      step w (ResolveAccounts k (Rejected e))
  | Some {| init_state := AwaitChainId _ |} =>
      step w (ResolveChainId k (Rejected e))
  | _ => w
  end.

(** What a mount would have to do for the accounts and the chain id to be
    queried on mount: the two requests made, and the two answers stored. *)
Definition queried_on_mount (l : list Address) (n : number) : Prop :=
  let w := run_trace [ResolveAccounts 0 (Fulfilled l);
                      ResolveChainId 0 (Fulfilled n)]
             (after true [Render]) in
  In (CallRequest "eth_accounts") (calls w) /\
  In (CallRequest "eth_chainId") (calls w) /\
  accounts (state w) = l /\ chainId (state w) = n.

(** Actions in which code of the component runs: its render and cleanup,
    its event handlers, its [init]. *)
Definition component_code (a : Action) : bool :=
  match a with
  | Consumer _ | ProviderContext _ => false
  | _ => true
  end.





(** The part of the state that mirrors the provider, and the part that
    belongs to the views. *)
Definition wallet_state (s : State) :=
  (chainId s, accounts s, contextAccounts s, walletConnected s).

Definition ui_state (s : State) := (selectedAddress s, isSearching s).

(** An element that is not a provider of [UpContext]. *)
Definition no_provider (e : Element) : Prop :=
  match e with UpContext_Provider _ => False | OtherElement => True end.

(** ** Notions used by the further properties *)

(** Run [r] is suspended at one of the two requests of [init]. *)
Definition suspended (r : EffectRun) : bool :=
  match init_state r with
  | Settled _ => false
  | _ => true
  end.

(** No run of the effect is both mounted and suspended in [init]. *)
Definition all_idle (w : World) : Prop :=
  forall k r, nth_error (runs w) k = Some r ->
              mounted r = true -> suspended r = true -> False.

(** Only the run whose cleanup is pending can be mounted and suspended. *)
Definition current_only (w : World) : Prop :=
  forall k r, nth_error (runs w) k = Some r ->
              mounted r = true -> suspended r = true -> cleanup w = Some k.

(** After the unmount nothing is left to clean up or to resume. *)
Definition quiet (w : World) : Prop :=
  current_only w /\ (lifecycle w = Unmounted -> cleanup w = None).

(** The unmounted component at rest: nothing registered, nothing to clean
    up, no run able to write, the state [s0] and the calls [c0]. *)
Definition frozen (s0 : State) (c0 : list ProviderCall) (w : World) : Prop :=
  lifecycle w = Unmounted /\ cleanup w = None /\ all_idle w /\
  listeners w = [] /\ state w = s0 /\ calls w = c0.

(** What can still reach an instance that React has unmounted: the provider
    (its events, a change of its [contextAccounts]), the promises of [init]
    when they settle, and descendants that still hold a setter, whose calls
    React ignores for an unmounted instance.  React itself neither renders
    nor unmounts that instance again: rendering [<UpProvider>] anew mounts
    another instance. *)
Definition from_outside (a : Action) : bool :=
  match a with
  | Render | Unmount => false
  | _ => true
  end.

(** The listeners that the provider calls for event [e]. *)
Definition handlers_for (e : ProviderEvent) (w : World) : list Listener :=
  filter (fun l => String.eqb (l_event l) (event_name e)) (listeners w).

(** The object that a render builds from the state and the two clients. *)
Definition context_value (w : World) (client readClient : option Client)
  : ContextValue :=
  {| v_provider := is_some (provider w);
     v_client := client;
     v_chainId := chainId (state w);
     v_readClient := readClient;
     v_accounts := accounts (state w);
     v_contextAccounts := contextAccounts (state w);
     v_walletConnected := walletConnected (state w);
     v_selectedAddress := selectedAddress (state w);
     v_isSearching := isSearching (state w) |}.

(** The memo cells and the dependency array are those of a render of the
    current [chainId] and first entries. *)
Definition deps_current (w : World) (client readClient : option Client) : Prop :=
  lifecycle w = Mounted /\
  client_memo w = Some (chainId (state w), client) /\
  readClient_memo w = Some (chainId (state w), readClient) /\
  effect_deps w =
    Some (client, hd_error (accounts (state w)),
          hd_error (contextAccounts (state w))).

(** Nothing has changed since the last render. *)
Definition in_sync (w : World) : Prop :=
  exists client readClient,
    deps_current w client readClient /\
    data w = Some (context_value w client readClient).

(** The run whose cleanup is pending closes over the [account] and
    [contextAccount] of the dependency array. *)
Definition captured_ok (w : World) : Prop :=
  forall k r c a x,
    cleanup w = Some k -> nth_error (runs w) k = Some r ->
    effect_deps w = Some (c, a, x) ->
    account r = a /\ contextAccount r = x.

(** What the effect leaves alone. *)
Definition render_frame (s : State) (m1 m2 : option (number * option Client))
    (d : option ContextValue) (b : bool) (w : World) : Prop :=
  state w = s /\ lifecycle w = Mounted /\ client_memo w = m1 /\
  readClient_memo w = m2 /\ data w = d /\ is_some (provider w) = b.

(** Event [e] changes neither [chainId] nor the first entry of an array. *)
Definition same_first (e : ProviderEvent) (s : State) : Prop :=
  match e with
  | EvAccountsChanged l => hd_error l = hd_error (accounts s)
  | EvContextAccountsChanged l => hd_error l = hd_error (contextAccounts s)
  | EvChainChanged n => n = chainId s
  end.

(** The clients that the component holds were created before: their
    identities are below the next one. *)
Definition older (n : nat) (c : option Client) : Prop :=
  match c with Some x => oid x < n | None => True end.

Definition fresh_oids (w : World) : Prop :=
  (forall d c, client_memo w = Some (d, c) -> older (next_oid w) c) /\
  (forall d c, readClient_memo w = Some (d, c) -> older (next_oid w) c) /\
  (forall c a x, effect_deps w = Some (c, a, x) -> older (next_oid w) c).

(** The component without a provider (rendered where [window] is
    undefined): nothing on the wallet side ever moves. *)
Definition inert (w : World) : Prop :=
  provider w = None /\ cleanup w = None /\
  wallet_state (state w) = (Num 0, [], [], false) /\
  (forall k r, nth_error (runs w) k = Some r -> suspended r = false) /\
  (forall d v, client_memo w = Some (d, v) -> v = None) /\
  (forall d v, readClient_memo w = Some (d, v) -> v = None) /\
  (forall d, data w = Some d ->
     v_provider d = false /\ v_client d = None /\ v_readClient d = None /\
     (v_chainId d, v_accounts d, v_contextAccounts d, v_walletConnected d) =
       (Num 0, [], [], false)).

(** No [init] has ended by throwing: the promise it returned is not
    rejected. *)
Definition no_rejection (w : World) : Prop :=
  forall k r e, nth_error (runs w) k = Some r -> init_state r <> Settled (Throw e).

(** Whatever [body] returns, it is not a thrown completion. *)
Definition returns_ok (body : M InitState) : Prop :=
  forall w, match body w with
            | (_, Return s) => forall e, s <> Settled (Throw e)
            | (_, Raise _) => True
            end.

(** * JavaScript numbers *)

Lemma Object_is_spec (a b : number) : reflect (a = b) (Object_is a b).
Proof.
  destruct a as [x|], b as [y|]; cbn; try (constructor; congruence).
  destruct (Z.eqb_spec x y); constructor; congruence.
Qed.

Lemma Object_is_refl (a : number) : Object_is a a = true.
Proof. destruct a; cbn; [apply Z.eqb_refl | reflexivity]. Qed.

Lemma truthy_spec (n : number) : truthy n = true <-> n <> Num 0 /\ n <> NaN.
Proof.
  destruct n as [z|]; cbn.
  - destruct (Z.eqb_spec z 0); cbn; split; try congruence.
    + intros [H _]. subst. now contradiction H.
    + intros _. split; congruence.
  - split; [discriminate | intros [_ H]; now contradiction H].
Qed.

Lemma strict_equal_spec (n : number) (z : Z) :
  strict_equal n (Num z) = true <-> n = Num z.
Proof.
  destruct n as [x|]; cbn; [|split; discriminate].
  rewrite Z.eqb_eq. split; congruence.
Qed.

Section Rules.
Context {A B : Type}.
Variables (P : World -> Prop) (E : JsError -> World -> Prop).

Lemma hoare_ret (a : A) (Q : A -> World -> Prop) :
  (forall w, P w -> Q a w) -> hoare P (ret a) Q E.
Proof. intros H w Hw. now apply H. Qed.

Lemma hoare_throw (e : JsError) (Q : A -> World -> Prop) :
  (forall w, P w -> E e w) -> hoare P (throw e) Q E.
Proof. intros H w Hw. now apply H. Qed.

Lemma hoare_gets (f : World -> A) (Q : A -> World -> Prop) :
  (forall w, P w -> Q (f w) w) -> hoare P (gets f) Q E.
Proof. intros H w Hw. now apply H. Qed.

Lemma hoare_modify (f : World -> World) (Q : unit -> World -> Prop) :
  (forall w, P w -> Q tt (f w)) -> hoare P (modify f) Q E.
Proof. intros H w Hw. now apply H. Qed.

Lemma hoare_bind (m : M A) (f : A -> M B) (R : A -> World -> Prop)
    (Q : B -> World -> Prop) :
  hoare P m R E -> (forall a, hoare (R a) (f a) Q E) ->
  hoare P (bind m f) Q E.
Proof.
  intros Hm Hf w Hw. unfold bind. specialize (Hm w Hw).
  destruct (m w) as [w' [a|e]]; [now apply Hf | exact Hm].
Qed.

Lemma hoare_try_catch (body : M A) (h : JsError -> M A)
    (Q : A -> World -> Prop) (E' : JsError -> World -> Prop) :
  hoare P body Q E' -> (forall e, hoare (E' e) (h e) Q E) ->
  hoare P (try_catch body h) Q E.
Proof.
  intros Hb Hh w Hw. unfold try_catch. specialize (Hb w Hw).
  destruct (body w) as [w' [a|e]]; [exact Hb | now apply Hh].
Qed.

Lemma hoare_with_provider (f : UPClientProvider -> UPClientProvider * A)
    (Q : A -> World -> Prop) :
  (forall w, P w ->
     match provider w with
     | None => E TypeError w
     | Some p => Q (snd (f p)) (set_provider (Some (fst (f p))) w)
     end) ->
  hoare P (with_provider f) Q E.
Proof.
  intros H w Hw. unfold with_provider. specialize (H w Hw).
  destruct (provider w) as [p|]; [|exact H]. now destruct (f p).
Qed.
End Rules.

Lemma hoare_conseq {A} (P P' : World -> Prop) (m : M A)
    (Q Q' : A -> World -> Prop) (E E' : JsError -> World -> Prop) :
  hoare P' m Q' E' ->
  (forall w, P w -> P' w) -> (forall a w, Q' a w -> Q a w) ->
  (forall e w, E' e w -> E e w) ->
  hoare P m Q E.
Proof.
  intros H HP HQ HE w Hw. specialize (H w (HP w Hw)).
  destruct (m w) as [w' [a|e]]; auto.
Qed.

(** A value read from the initial world may be named in a triple. *)
Lemma hoare_named {A X} (f : World -> X) (P : World -> Prop) (m : M A)
    (Q : A -> World -> Prop) (E : JsError -> World -> Prop) :
  (forall x, hoare (fun w => P w /\ f w = x) m Q E) -> hoare P m Q E.
Proof. intros H w Hw. apply (H (f w) w). auto. Qed.

(** A fact that does not depend on the world may be taken out of the
    precondition. *)
Lemma hoare_pure {A} (F : Prop) (P : World -> Prop) (m : M A)
    (Q : A -> World -> Prop) (E : JsError -> World -> Prop) :
  (F -> hoare P m Q E) -> hoare (fun w => P w /\ F) m Q E.
Proof. intros H w [Hw HF]. now apply H. Qed.

Section Keeps.
Context {A B : Type}.
Variables (P : World -> Prop) (E : JsError -> World -> Prop).

Lemma keeps_ret (a : A) : keeps P E (ret a).
Proof. now apply hoare_ret. Qed.

Lemma keeps_throw (e : JsError) :
  (forall w, P w -> E e w) -> keeps P E (@throw A e).
Proof. intros H. now apply hoare_throw. Qed.

Lemma keeps_gets (f : World -> A) : keeps P E (gets f).
Proof. now apply hoare_gets. Qed.

Lemma keeps_modify (f : World -> World) :
  (forall w, P w -> P (f w)) -> keeps P E (modify f).
Proof. intros H. now apply hoare_modify. Qed.

Lemma keeps_bind (m : M A) (f : A -> M B) :
  keeps P E m -> (forall a, keeps P E (f a)) -> keeps P E (bind m f).
Proof. intros Hm Hf. eapply hoare_bind; [exact Hm | exact Hf]. Qed.

Lemma keeps_try_catch (body : M A) (h : JsError -> M A) :
  preserves P body -> (forall e, keeps P E (h e)) ->
  keeps P E (try_catch body h).
Proof. intros Hb Hh. eapply hoare_try_catch; [exact Hb | exact Hh]. Qed.

Lemma keeps_with_provider (f : UPClientProvider -> UPClientProvider * A) :
  (forall w, provider w = None -> P w -> E TypeError w) ->
  (forall w p, provider w = Some p -> P w ->
               P (set_provider (Some (fst (f p))) w)) ->
  keeps P E (with_provider f).
Proof.
  intros HN HS. apply hoare_with_provider. intros w Hw.
  destruct (provider w) as [p|] eqn:Hp; [now apply HS | now apply HN].
Qed.

Lemma keeps_new_run (a c : option Address) :
  (forall w r, P w -> P (set_runs (runs w ++ [r]) w)) ->
  keeps P E (new_run a c).
Proof. intros H w Hw. cbn. now apply H. Qed.

Lemma keeps_createClient (c : Chain) :
  (forall w n, P w -> P (set_next_oid n w)) -> keeps P E (createClient c).
Proof. intros H w Hw. cbn. now apply H. Qed.

Lemma keeps_async (body : M InitState) :
  preserves P body -> keeps P E (async body).
Proof.
  intros Hb w Hw. unfold async. specialize (Hb w Hw).
  now destruct (body w) as [w' [a|e]].
Qed.

Lemma keeps_exec (m : M A) (w : World) :
  keeps P E m -> (forall e w', E e w' -> P w') -> P w -> P (exec m w).
Proof.
  intros H HE Hw. specialize (H w Hw). unfold exec.
  destruct (m w) as [w' [a|e]]; [exact H | now apply (HE e)].
Qed.
End Keeps.

Lemma keeps_for_each {A} (P : World -> Prop) (E : JsError -> World -> Prop)
    (f : A -> M unit) (l : list A) :
  (forall x, keeps P E (f x)) -> keeps P E (for_each f l).
Proof.
  intros Hf. induction l as [|x t IH]; cbn [for_each].
  - apply keeps_ret.
  - eapply hoare_bind; [apply Hf | intros u; exact IH].
Qed.

(** [useMemo] does not throw: [custom] is reached only where the provider
    is an object.  It stores the value it computes, creates a client, and
    hands the provider to [custom]. *)
Lemma keeps_useMemo (P : World -> Prop) (E : JsError -> World -> Prop)
    (cell : World -> option (number * option Client))
    (store : option (number * option Client) -> World -> World)
    (chainId : number) :
  (forall w m, P w -> P (store m w)) ->
  (forall w n, P w -> P (set_next_oid n w)) ->
  (forall w p, provider w = Some p -> P w ->
               P (set_provider (Some (log_use (PassedTo "custom") p)) w)) ->
  keeps P E (useMemo cell store chainId).
Proof.
  intros Hs Hn Hc w Hw. unfold useMemo, bind, gets, modify, ret.
  assert (Hcompute :
    match
      (let (w', o) :=
         match client_chain (provider w) chainId with
         | Some c =>
             fun w0 => let (w1, o) := custom w0 in
                       match o with
                       | Return _ =>
                           let (w2, o0) := createClient c w1 in
                           match o0 with
                           | Return a => (w2, Return (Some a))
                           | Raise e => (w2, Raise e)
                           end
                       | Raise e => (w1, Raise e)
                       end
         | None => fun w0 => (w0, Return None)
         end w in
       match o with
       | Return a => (store (Some (chainId, a)) w', Return a)
       | Raise e => (w', Raise e)
       end)
    with
    | (w', Return _) => P w'
    | (w', Raise e) => E e w'
    end).
  { unfold client_chain, custom, with_provider, createClient.
    destruct (provider w) as [p|] eqn:Hp; cbn; [|now apply Hs].
    destruct (truthy chainId); cbn; [|now apply Hs].
    rewrite Hp. cbn. apply Hs, Hn. now apply Hc. }
  destruct (cell w) as [[d v]|]; [|exact Hcompute].
  destruct (Object_is d chainId); [exact Hw | exact Hcompute].
Qed.

(** Walks through component code with the rules above and leaves one goal
    for every elementary update of the world. *)
Ltac head_of t :=
  lazymatch t with
  | ?f _ => head_of f
  | _ => t
  end.

Ltac walk :=
  lazymatch goal with
  | |- preserves _ _ => unfold preserves; walk
  | |- keeps _ _ (bind _ _) => apply keeps_bind; [walk | intros ?; walk]
  | |- keeps _ _ (ret _) => apply keeps_ret
  | |- keeps _ _ (throw _) => apply keeps_throw
  | |- keeps _ _ (gets _) => apply keeps_gets
  | |- keeps _ _ (try_catch _ _) =>
      apply keeps_try_catch; [walk | intros ?; walk]
  | |- keeps _ _ (async _) => apply keeps_async; walk
  | |- keeps _ _ (for_each _ _) => apply keeps_for_each; intros ?; walk
  | |- keeps _ _ (modify _) => apply keeps_modify
  | |- keeps _ _ (with_provider _) => apply keeps_with_provider
  | |- keeps _ _ (new_run _ _) => apply keeps_new_run
  | |- keeps _ _ (createClient _) => apply keeps_createClient
  | |- keeps _ _ (useMemo _ _ _) => apply keeps_useMemo
  | |- keeps _ _ (match ?x with _ => _ end) => destruct x; walk
  | |- keeps _ _ ?m => let h := head_of m in unfold h; cbv beta zeta; walk
  end.
(** ** Histories *)

Lemma run_trace_app (xs ys : list Action) (w : World) :
  run_trace (xs ++ ys) w = run_trace ys (run_trace xs w).
Proof. unfold run_trace. apply fold_left_app. Qed.

Lemma step_keeps (P : World -> Prop) (E : JsError -> World -> Prop)
    (a : Action) (w : World) :
  keeps P E (handle a) -> (forall e w', E e w' -> P w') -> P w -> P (step w a).
Proof. intros H HE Hw. unfold step. eapply keeps_exec; eauto. Qed.

(** A predicate kept by every step holds along every history. *)
Lemma run_trace_invariant (P : World -> Prop) :
  (forall a w, P w -> P (step w a)) ->
  forall acts w, P w -> P (run_trace acts w).
Proof.
  intros H acts. induction acts as [|a t IH]; intros w Hw; cbn.
  - exact Hw.
  - apply IH. now apply H.
Qed.

(** ** The provider handle stays [null] or stays an object *)

Lemma provider_presence (a : Action) (b : bool) :
  preserves (fun w => is_some (provider w) = b) (handle a).
Proof.
  destruct a; walk; cbn; intros; auto.
  all: try (match goal with H : provider _ = Some _ |- _ => rewrite H in * end; auto).
  destruct (provider w) eqn:Hp; cbn in *; [auto | now rewrite Hp].
Qed.

Lemma provider_after (window : bool) (acts : list Action) :
  is_some (provider (after window acts)) = window.
Proof.
  unfold after. apply run_trace_invariant.
  - intros a w Hw.
    eapply step_keeps; [apply provider_presence | intros e w' H; exact H | exact Hw].
  - now destruct window.
Qed.

(** ** The calls made on the provider *)

Lemma calls_log (c : ProviderCall) (w : World) (p : UPClientProvider) (l : list Listener) :
  provider w = Some p ->
  calls (set_provider (Some (log_call c (set_listeners l p))) w) = calls w ++ [c].
Proof. intros H. unfold calls. cbn. now rewrite H. Qed.

Lemma calls_log_use (u : ProviderUse) (w : World) (p : UPClientProvider) :
  provider w = Some p ->
  calls (set_provider (Some (log_use u p)) w) = calls w.
Proof. intros H. unfold calls. cbn. now rewrite H. Qed.

Lemma calls_allowed (a : Action) :
  preserves (fun w => Forall allowed_call (calls w)) (handle a).
Proof.
  destruct a; walk; intros; try assumption; cbn [fst].
  all: try match goal with
    | Hp : provider ?w = Some ?p |- Forall _ (calls (set_provider (Some (log_call ?c ?q)) _)) =>
        let H := fresh in
        assert (H : calls (set_provider (Some (log_call c q)) w) = calls w ++ [c])
          by (unfold calls; cbn; now rewrite Hp);
        rewrite H; apply Forall_app; split; [assumption|];
        constructor; [cbn; unfold known_event; auto | constructor]
    | Hp : provider ?w = Some ?p |- Forall _ (calls (set_provider (Some (log_use _ _)) _)) =>
        now rewrite (calls_log_use _ _ _ Hp)
    end.
  - unfold calls in *. destruct (provider w) eqn:Hp; cbn; [exact H | now rewrite Hp].
Qed.

(** ** The other uses of the provider *)

Lemma uses_log_call (c : ProviderCall) (w : World) (p : UPClientProvider)
    (l : list Listener) :
  provider w = Some p ->
  uses (set_provider (Some (log_call c (set_listeners l p))) w) = uses w.
Proof. intros H. unfold uses. cbn. now rewrite H. Qed.

Lemma uses_allowed (a : Action) :
  preserves (fun w => Forall allowed_use (uses w)) (handle a).
Proof.
  destruct a; walk; intros; try assumption; cbn [fst].
  all: try match goal with
    | Hp : provider ?w = Some ?p
      |- Forall _ (uses (set_provider (Some (log_use ?u ?q)) _)) =>
        let H := fresh in
        assert (H : uses (set_provider (Some (log_use u q)) w) = uses w ++ [u])
          by (unfold uses; cbn; now rewrite Hp);
        rewrite H; apply Forall_app; split; [assumption|];
        constructor; [unfold allowed_use; auto | constructor]
    | Hp : provider ?w = Some ?p
      |- Forall _ (uses (set_provider (Some (log_call _ _)) _)) =>
        unfold uses in *; cbn; now rewrite Hp in *
    end.
  - unfold uses in *. destruct (provider w) eqn:Hp; cbn; [exact H | now rewrite Hp].
Qed.

(** ** Lists *)

Lemma nth_error_snoc {A} (l : list A) (x : A) :
  nth_error (l ++ [x]) (List.length l) = Some x.
Proof. induction l as [|y t IH]; cbn; auto. Qed.

Lemma nth_error_snoc_lt {A} (l : list A) (x y : A) (k : nat) :
  nth_error l k = Some y -> nth_error (l ++ [x]) k = Some y.
Proof.
  revert k. induction l as [|z t IH]; intros [|k]; cbn; intros H;
    try discriminate; auto.
Qed.

Lemma update_nth_snoc {A} (f : A -> A) (l : list A) (x : A) :
  update_nth (List.length l) f (l ++ [x]) = l ++ [f x].
Proof. induction l as [|y t IH]; cbn; [reflexivity | now rewrite IH]. Qed.

Lemma nth_error_update_nth {A} (f : A -> A) (l : list A) (k j : nat) :
  nth_error (update_nth k f l) j =
  if Nat.eqb j k then option_map f (nth_error l j) else nth_error l j.
Proof.
  revert k j. induction l as [|x t IH]; intros k j.
  - destruct j, k; cbn; try reflexivity. now destruct (Nat.eqb j k).
  - destruct k, j; cbn; try reflexivity. apply IH.
Qed.

Lemma option_eqb_refl (o : option string) : option_eqb String.eqb o o = true.
Proof. destruct o as [s|]; cbn; [apply String.eqb_refl | reflexivity]. Qed.

(** Unfolds component code applied to a world, using what is known of the
    provider of that world. *)
Ltac evaluate Hp :=
  repeat (cbn;
          unfold bind, gets, modify, ret, throw, try_catch, async,
            with_provider, request, on, removeListener, get_contextAccounts,
            set_init, set_mounted, new_run, init, await;
          cbn; try rewrite !Hp).

Lemma effect_spec (d : Deps) (ed : option Deps) (lc : Lifecycle) :
  hoare (fun w => listeners w = [] /\ effect_deps w = ed /\ lifecycle w = lc)
    (effect d)
    (fun _ w => wired w /\
                (is_some (provider w) = true -> is_some (cleanup w) = true) /\
                effect_deps w = ed /\ lifecycle w = lc)
    (fun _ _ => False).
Proof.
  destruct d as [[c a] x]. intros w (Hl & Hd & Hc). unfold effect, init_entry.
  unfold listeners in Hl.
  destruct (provider w) as [p|] eqn:Hp; destruct c as [c|]; evaluate Hp.
  - rewrite update_nth_snoc, nth_error_snoc. repeat split; auto.
    do 2 eexists. repeat split. cbn. now rewrite Hl.
  - rewrite update_nth_snoc, nth_error_snoc. repeat split; auto.
    do 2 eexists. repeat split. cbn. now rewrite Hl.
  - repeat split; auto; try discriminate.
    unfold wired, listeners. cbn. now rewrite Hp.
  - repeat split; auto; try discriminate.
    unfold wired, listeners. cbn. now rewrite Hp.
Qed.

Lemma effect_cleanup_spec (k : nat) (ed : option Deps) (lc : Lifecycle) :
  hoare (fun w => wired w /\ cleanup w = Some k /\
                  effect_deps w = ed /\ lifecycle w = lc)
    (effect_cleanup k)
    (fun _ w => listeners w = [] /\ effect_deps w = ed /\ lifecycle w = lc)
    (fun _ _ => False).
Proof.
  intros w (Hw & Hk & Hd & Hc). unfold wired in Hw. rewrite Hk in Hw.
  destruct Hw as (r & p & Hr & Hm & Hp & Hl).
  unfold effect_cleanup. evaluate Hp. rewrite Hr. evaluate Hp.
  rewrite Hl. unfold listeners, is_listener. cbn.
  repeat (rewrite ?Nat.eqb_refl, ?option_eqb_refl; cbn). auto.
Qed.

Lemma run_pending_cleanup_spec (ed : option Deps) (lc : Lifecycle) :
  hoare (fun w => wired w /\ effect_deps w = ed /\ lifecycle w = lc)
    run_pending_cleanup
    (fun _ w => listeners w = [] /\ cleanup w = None /\
                effect_deps w = ed /\ lifecycle w = lc)
    (fun _ _ => False).
Proof.
  unfold run_pending_cleanup.
  eapply hoare_bind.
  - apply hoare_gets with
      (Q := fun c w => (wired w /\ effect_deps w = ed /\ lifecycle w = lc) /\
                       c = cleanup w).
    auto.
  - intros [k|].
    + eapply hoare_bind.
      * eapply hoare_conseq; [apply (effect_cleanup_spec k ed lc) | | |].
        -- intros w ((Hw & Hd & Hc) & Hk). auto.
        -- intros u w H. exact H.
        -- auto.
      * intros u. apply hoare_modify. intros w (Hl & Hd & Hc). cbn. auto.
    + apply hoare_ret. intros w ((Hw & Hd & Hc) & Hk).
      unfold wired in Hw. rewrite <- Hk in Hw. auto.
Qed.

Lemma useEffect_spec (d : Deps) :
  hoare effect_ready
    (useEffect d)
    (fun _ w => effect_invariant w)
    (fun _ _ => False).
Proof.
  unfold useEffect.
  eapply hoare_bind.
  { apply hoare_gets with
      (Q := fun old w => wired w /\ (old = None -> cleanup w = None) /\
                         (old <> None -> is_some (provider w) = true ->
                          is_some (cleanup w) = true) /\
                         lifecycle w = Mounted).
    intros w (Hw & H1 & H2 & Hl). auto. }
  intros old. eapply hoare_bind.
  { apply hoare_modify with
      (Q := fun _ w => (wired w /\ (old = None -> cleanup w = None) /\
                        (old <> None -> is_some (provider w) = true ->
                         is_some (cleanup w) = true)) /\
                       effect_deps w = Some d /\ lifecycle w = Mounted).
    intros w (Hw & H1 & H2 & Hl). cbn. auto. }
  intros u. destruct old as [d0|].
  - destruct (same_deps d0 d).
    + apply hoare_ret. intros w ((Hw & H1 & H2) & Hd & Hl).
      split; [exact Hw|]. unfold coupled. rewrite Hd, Hl.
      repeat split; try discriminate. intros Hp. apply H2; [discriminate | exact Hp].
    + eapply hoare_bind.
      * eapply hoare_conseq;
          [apply (run_pending_cleanup_spec (Some d) Mounted) | | |].
        -- intros w ((Hw & H1 & H2) & Hd & Hl). auto.
        -- intros a w H. exact H.
        -- auto.
      * intros u'. eapply hoare_conseq;
          [apply (effect_spec d (Some d) Mounted) | | |].
        -- intros w (Hl & Hk & Hd & Hc). auto.
        -- intros a w (Hw & Hp & Hd & Hc). split; [exact Hw|].
           unfold coupled. rewrite Hd, Hc. repeat split; try discriminate. exact Hp.
        -- auto.
  - eapply hoare_conseq; [apply (effect_spec d (Some d) Mounted) | | |].
    + intros w ((Hw & H1 & H2) & Hd & Hl). repeat split; auto.
      unfold wired in Hw. now rewrite (H1 eq_refl) in Hw.
    + intros a w (Hw & Hp & Hd & Hc). split; [exact Hw|].
      unfold coupled. rewrite Hd, Hc. repeat split; try discriminate. exact Hp.
    + auto.
Qed.

Ltac keeps_goal :=
  lazymatch goal with
  | |- hoare ?P ?m _ ?E => change (keeps P E m)
  end.

Lemma wired_provider (w : World) (p p' : UPClientProvider) :
  provider w = Some p -> p_listeners p' = p_listeners p ->
  wired w -> wired (set_provider (Some p') w).
Proof.
  intros Hp Hl Hw. unfold wired in *. cbn. destruct (cleanup w) as [k|].
  - destruct Hw as (r & q & Hr & Hm & Hq & Hlq).
    rewrite Hp in Hq. injection Hq as <-.
    exists r, p'. repeat split; auto. congruence.
  - unfold listeners in *. cbn. rewrite Hp in Hw. congruence.
Qed.

Lemma effect_ready_provider (w : World) (p p' : UPClientProvider) :
  provider w = Some p -> p_listeners p' = p_listeners p ->
  effect_ready w -> effect_ready (set_provider (Some p') w).
Proof.
  intros Hp Hl (Hw & H1 & H2 & H3).
  split; [now apply wired_provider with (p := p)|].
  cbn. rewrite Hp in H2. cbn in H2. auto.
Qed.

Lemma UpProvider_spec :
  hoare effect_ready UpProvider (fun _ w => effect_invariant w) (fun _ _ => False).
Proof.
  unfold UpProvider.
  eapply hoare_bind with (R := fun _ => effect_ready);
    [keeps_goal; walk; intros; assumption|].
  intros s.
  eapply hoare_bind with (R := fun _ => effect_ready);
    [keeps_goal; walk; intros; try assumption;
     now apply effect_ready_provider with (p := p)|].
  intros client.
  eapply hoare_bind with (R := fun _ => effect_ready);
    [keeps_goal; walk; intros; try assumption;
     now apply effect_ready_provider with (p := p)|].
  intros readClient.
  eapply hoare_bind with (R := fun _ => effect_ready);
    [keeps_goal; walk; intros; assumption|].
  intros p.
  eapply hoare_bind with (R := fun _ => effect_ready);
    [keeps_goal; walk; intros; assumption|].
  intros u. apply useEffect_spec.
Qed.

Lemma effect_invariant_provider (w : World) (p p' : UPClientProvider) :
  provider w = Some p -> p_listeners p' = p_listeners p ->
  effect_invariant w -> effect_invariant (set_provider (Some p') w).
Proof.
  intros Hp Hl [Hw Hc]. split.
  - now apply wired_provider with (p := p).
  - unfold coupled in *. cbn. now rewrite Hp in Hc.
Qed.

Lemma effect_invariant_set_init (w : World) (k : nat) (s : InitState) :
  effect_invariant w ->
  effect_invariant
    (set_runs
       (update_nth k
          (fun r => {| mounted := mounted r; init_state := s;
                       account := account r;
                       contextAccount := contextAccount r |})
          (runs w)) w).
Proof.
  intros [Hw Hc]. split; [|exact Hc].
  unfold wired in *. cbn. destruct (cleanup w) as [k0|]; [|exact Hw].
  destruct Hw as (r & p & Hr & Hm & Hp & Hl).
  rewrite nth_error_update_nth, Hr. cbn.
  destruct (Nat.eqb k0 k); do 2 eexists; repeat split; eauto.
Qed.

(** Every step keeps the invariant of the effect, and no step throws. *)
Lemma effect_invariant_step (a : Action) :
  keeps effect_invariant (fun _ _ => False) (handle a).
Proof.
  destruct a.
  - (* Render *)
    unfold handle. eapply hoare_bind.
    { apply hoare_gets with
        (Q := fun l w => effect_invariant w /\ l = lifecycle w). auto. }
    intros l.
    assert (Hrender : forall l0, l0 <> Unmounted ->
      hoare (fun w => effect_invariant w /\ l0 = lifecycle w)
        (modify (set_lifecycle Mounted);; UpProvider)
        (fun _ => effect_invariant) (fun _ _ => False)).
    { intros l0 Hl0. eapply hoare_bind with (R := fun _ => effect_ready).
      - apply hoare_modify. intros w ((Hw & H1 & H2 & H3) & Hl).
        unfold effect_ready. cbn. repeat split; auto.
        intros Hd Hp. destruct l0; [| | congruence].
        + symmetry in Hl. now specialize (H1 Hl).
        + symmetry in Hl. now apply (H3 Hl).
      - intros u. apply UpProvider_spec. }
    destruct l; [apply Hrender; discriminate | apply Hrender; discriminate |].
    apply hoare_ret. now intros w [Hw _].
  - (* Unmount *)
    unfold handle. eapply hoare_bind.
    { apply hoare_gets with
        (Q := fun l w => effect_invariant w /\ l = lifecycle w). auto. }
    intros l. destruct l; try (apply hoare_ret; now intros w [Hw _]).
    apply hoare_named with (f := effect_deps). intros ed.
    eapply hoare_bind.
    + eapply hoare_conseq;
        [apply run_pending_cleanup_spec with (ed := ed) (lc := Mounted) | | |].
      * intros w ((Hw & Hl) & Hd). destruct Hw as [Hw _]. auto.
      * intros u w H. exact H.
      * auto.
    + intros u. apply hoare_modify. intros w (Hl & Hk & Hd & Hc).
      split.
      * unfold wired. cbn. now rewrite Hk.
      * unfold coupled. cbn. repeat split; auto; discriminate.
  - (* Emit *)
    walk; intros; assumption.
  - (* ProviderContext *)
    walk. intros w Hw. destruct (provider w) as [p|] eqn:Hp; [|exact Hw].
    now apply effect_invariant_provider with (p := p).
  - (* ResolveAccounts *)
    walk; intros; try assumption.
    + now apply effect_invariant_provider with (p := p).
    + now apply effect_invariant_set_init.
  - (* ResolveChainId *)
    walk; intros; try assumption.
    all: try (now apply effect_invariant_provider with (p := p)).
    all: try (now apply effect_invariant_set_init).
  - (* Consumer *)
    walk; intros; assumption.
Qed.

Lemma effect_invariant_after (window : bool) (acts : list Action) :
  effect_invariant (after window acts).
Proof.
  unfold after. apply run_trace_invariant.
  - intros a w Hw. eapply step_keeps; [apply effect_invariant_step | | exact Hw].
    intros e w' [].
  - destruct window; (split; [reflexivity | repeat split; auto; discriminate]).
Qed.

(** C5. Cleanup removes what the effect registered: in every history of the
    component, a run of the effect whose cleanup has run (its [mounted] is
    [false]; only the cleanup clears it) owns none of the listeners that are
    on the provider. *)
Theorem cleanup_removes_listeners (window : bool) (acts : list Action)
    (k : nat) (r : EffectRun) :
  nth_error (runs (after window acts)) k = Some r ->
  mounted r = false ->
  Forall (fun l => l_owner l <> k) (listeners (after window acts)).
Proof.
  intros Hr Hm. destruct (effect_invariant_after window acts) as [Hw _].
  unfold wired in Hw. destruct (cleanup (after window acts)) as [k0|].
  - destruct Hw as (r0 & p & Hr0 & Hm0 & Hp & Hl).
    unfold listeners. rewrite Hp, Hl.
    assert (Hk : k0 <> k) by (intros ->; congruence).
    unfold registered. repeat constructor; exact Hk.
  - rewrite Hw. constructor.
Qed.

Lemma cleanup_removes_listeners_witness :
  let acts := [Render; Emit (EvAccountsChanged ["0xA"]); Render] in
  option_map mounted (nth_error (runs (after true acts)) 0) = Some false /\
  listeners (after true [Render]) = registered 0 None None /\
  Forall (fun l => l_owner l <> 0) (listeners (after true acts)).
Proof.
  split; [reflexivity | split; [reflexivity |]].
  apply (cleanup_removes_listeners true
           [Render; Emit (EvAccountsChanged ["0xA"]); Render] 0
           {| mounted := false; init_state := Settled Normal;
              account := None; contextAccount := None |});
    reflexivity.
Defined.

(** While the component is mounted on a provider, the listeners on the
    provider are the three handlers of the current run of the effect. *)
Lemma mounted_listeners (acts : list Action) :
  lifecycle (after true acts) = Mounted ->
  exists k a c, listeners (after true acts) = registered k a c.
Proof.
  intros Hl. destruct (effect_invariant_after true acts) as [Hw (_ & _ & Hc)].
  destruct (Hc Hl) as [_ Hk]. specialize (Hk (provider_after true acts)).
  unfold wired in Hw. destruct (cleanup (after true acts)) as [k|]; [|discriminate].
  destruct Hw as (r & p & Hr & Hm & Hp & Hreg).
  exists k, (account r), (contextAccount r). unfold listeners. now rewrite Hp.
Qed.

(** C6. Each handler stores the payload of its event: while the component
    is mounted on a provider, an [accountsChanged] event sets [accounts] to
    the list it carries, a [contextAccountsChanged] event sets
    [contextAccounts] to the list it carries, and a [chainChanged] event
    sets [chainId] to the number it carries. *)
Theorem events_update_state (acts : list Action) (l : list Address) (n : number) :
  lifecycle (after true acts) = Mounted ->
  accounts (state (step (after true acts) (Emit (EvAccountsChanged l)))) = l /\
  contextAccounts
    (state (step (after true acts) (Emit (EvContextAccountsChanged l)))) = l /\
  chainId (state (step (after true acts) (Emit (EvChainChanged n)))) = n.
Proof.
  intros Hl. destruct (mounted_listeners acts Hl) as (k & a & c & Hreg).
  unfold listeners in Hreg.
  destruct (provider (after true acts)) as [p|] eqn:Hp.
  - unfold step, exec, handle, emit.
    repeat split; evaluate Hp; rewrite Hreg; reflexivity.
  - discriminate.
Qed.

Lemma events_update_state_witness :
  lifecycle (after true [Render]) = Mounted /\
  accounts (state (step (after true [Render])
                     (Emit (EvAccountsChanged ["0xA"; "0xB"])))) = ["0xA"; "0xB"] /\
  contextAccounts
    (state (step (after true [Render])
              (Emit (EvContextAccountsChanged ["0xA"; "0xB"])))) = ["0xA"; "0xB"] /\
  chainId (state (step (after true [Render]) (Emit (EvChainChanged (Num 4201))))) = Num 4201.
Proof.
  split; [reflexivity|].
  apply (events_update_state [Render] ["0xA"; "0xB"] (Num 4201)). reflexivity.
Defined.

(** ** The provider in the context value *)

Lemma exposes_provider_used (b : bool) (w : World) (p p' : UPClientProvider) :
  provider w = Some p -> exposes_provider b w ->
  exposes_provider b (set_provider (Some p') w).
Proof. intros Hp [H1 H2]. rewrite Hp in H1. split; [exact H1 | exact H2]. Qed.

Lemma UpProvider_exposes (b : bool) : preserves (exposes_provider b) UpProvider.
Proof.
  unfold UpProvider, preserves, keeps.
  eapply hoare_bind with (R := fun _ => exposes_provider b); [keeps_goal; walk|].
  intros s.
  eapply hoare_bind with (R := fun _ => exposes_provider b);
    [keeps_goal; walk; intros; try assumption;
     eapply exposes_provider_used; eassumption|].
  intros client.
  eapply hoare_bind with (R := fun _ => exposes_provider b);
    [keeps_goal; walk; intros; try assumption;
     eapply exposes_provider_used; eassumption|].
  intros readClient.
  eapply hoare_bind with
    (R := fun p w => exposes_provider b w /\ is_some p = b).
  { apply hoare_gets. intros w H. split; [exact H | exact (proj1 H)]. }
  intros p.
  eapply hoare_bind with (R := fun _ => exposes_provider b).
  - apply hoare_modify. intros w [[H1 H2] Hp].
    split; [exact H1|]. intros d [= <-]. exact Hp.
  - intros u. keeps_goal. walk; intros; try assumption;
      try (eapply exposes_provider_used; eassumption).
Qed.

Lemma exposes_provider_step (b : bool) (a : Action) :
  preserves (exposes_provider b) (handle a).
Proof.
  destruct a.
  2-7: walk; intros; try assumption;
    try (eapply exposes_provider_used; eassumption).
  - (* Render *)
    unfold handle. apply keeps_bind; [walk|]. intros l.
    destruct l; [| |walk].
    1-2: apply keeps_bind;
      [walk; intros; assumption | intros u; apply UpProvider_exposes].
  - (* ProviderContext *)
    destruct (provider w) as [p|] eqn:Hp; [|assumption].
    eapply exposes_provider_used; eassumption.
Qed.

Lemma exposes_provider_after (window : bool) (acts : list Action) :
  exposes_provider window (after window acts).
Proof.
  unfold after. apply run_trace_invariant.
  - intros a w Hw.
    eapply step_keeps;
      [apply exposes_provider_step | intros e w' H; exact H | exact Hw].
  - split; [now destruct window | discriminate].
Qed.

(** C8, as stated, fails: the component does not deal with the provider
    through the two requests and the three events alone.  Each client it
    creates has been given the provider object through [custom], and the
    run of [init] that gets its two answers reads the property
    [contextAccounts]. *)
Lemma provider_used_otherwise :
  let w := after true [Render; Emit (EvChainChanged (Num 42)); Render;
                       ResolveAccounts 1 (Fulfilled ["0xA"]);
                       ResolveChainId 1 (Fulfilled (Num 42))] in
  uses w = [PassedTo "custom"; PassedTo "custom";
            ReadProperty "contextAccounts"] /\
  ~ only_requests_and_events w.
Proof.
  cbv zeta. split; [vm_compute; reflexivity|].
  intros [_ H]. vm_compute in H. discriminate.
Qed.

(** C8, amended.  Along every history, the methods of the provider that the
    component has called are [request], for [eth_accounts] and
    [eth_chainId] only, and [on] and [removeListener], for
    [accountsChanged], [chainChanged] and [contextAccountsChanged] only;
    every listener on the provider is under one of these three events; the
    other uses it has made of the object are reading its property
    [contextAccounts] and passing it to [custom]; and the context value
    carries the provider to the descendants whenever there is one. *)
Theorem fixed_requests_and_events (window : bool) (acts : list Action) :
  Forall allowed_call (calls (after window acts)) /\
  Forall (fun l => known_event (l_event l)) (listeners (after window acts)) /\
  Forall allowed_use (uses (after window acts)) /\
  (forall d, data (after window acts) = Some d -> v_provider d = window).
Proof.
  split; [|split; [|split]]; [| | |apply exposes_provider_after].
  - unfold after. apply run_trace_invariant.
    + intros a w Hw.
      eapply step_keeps; [apply calls_allowed | intros e w' H; exact H | exact Hw].
    + destruct window; constructor.
  - destruct (effect_invariant_after window acts) as [Hw _].
    unfold wired in Hw. destruct (cleanup (after window acts)) as [k|].
    + destruct Hw as (r & p & _ & _ & Hp & Hl).
      unfold listeners. rewrite Hp, Hl. unfold registered, known_event.
      repeat apply Forall_cons; try apply Forall_nil; cbn; auto.
    + rewrite Hw. constructor.
  - unfold after. apply run_trace_invariant.
    + intros a w Hw.
      eapply step_keeps; [apply uses_allowed | intros e w' H; exact H | exact Hw].
    + destruct window; constructor.
Qed.

(** ** The two clients *)

#[local] Arguments client_chain : simpl never.

Lemma client_chain_presence (p q : option UPClientProvider) (c : number) :
  is_some p = is_some q -> client_chain p c = client_chain q c.
Proof. unfold client_chain. now intros ->. Qed.

Ltac memo_stored Hp Hc :=
  split; [|cbn; rewrite ?Hc; reflexivity];
  split; [cbn; rewrite ?Hp; assumption|];
  split; [|split]; try assumption;
  intros ? ? [= <- <-]; cbn; rewrite ?Hc; reflexivity.

Section Clients.
Variable q : option UPClientProvider.

Lemma useMemo_client_spec (c : number) :
  hoare (clients_ok q) (useMemo client_memo set_client_memo c)
    (fun v w => clients_ok q w /\ option_map chain v = client_chain q c)
    (fun _ => clients_ok q).
Proof.
  intros w (H0 & H1 & H2 & H3). unfold useMemo, custom.
  pose proof (client_chain_presence _ q c H0) as Hq.
  unfold bind, gets, modify, ret, with_provider, createClient.
  destruct (client_memo w) as [[d v]|] eqn:Hm;
    [destruct (Object_is_spec d c) as [->|Hd]|]; cbv beta.
  1: { split; [|now apply H1]. unfold clients_ok. now rewrite Hm. }
  all: rewrite Hq; destruct (client_chain q c) as [ch|] eqn:Hc;
    destruct (provider w) as [p|] eqn:Hp; cbn;
    try (unfold client_chain in Hq; discriminate);
    memo_stored Hp Hc.
Qed.

Lemma useMemo_readClient_spec (c : number) :
  hoare (clients_ok q) (useMemo readClient_memo set_readClient_memo c)
    (fun v w => clients_ok q w /\ option_map chain v = client_chain q c)
    (fun _ => clients_ok q).
Proof.
  intros w (H0 & H1 & H2 & H3). unfold useMemo, custom.
  pose proof (client_chain_presence _ q c H0) as Hq.
  unfold bind, gets, modify, ret, with_provider, createClient.
  destruct (readClient_memo w) as [[d v]|] eqn:Hm;
    [destruct (Object_is_spec d c) as [->|Hd]|]; cbv beta.
  1: { split; [|now apply H2]. unfold clients_ok. now rewrite Hm. }
  all: rewrite Hq; destruct (client_chain q c) as [ch|] eqn:Hc;
    destruct (provider w) as [p|] eqn:Hp; cbn;
    try (unfold client_chain in Hq; discriminate);
    memo_stored Hp Hc.
Qed.

Lemma clients_ok_provider (w : World) (p p' : UPClientProvider) :
  provider w = Some p -> clients_ok q w ->
  clients_ok q (set_provider (Some p') w).
Proof.
  intros Hp (H0 & H1 & H2 & H3). rewrite Hp in H0.
  unfold clients_ok. cbn. auto.
Qed.

Lemma UpProvider_clients : preserves (clients_ok q) UpProvider.
Proof.
  unfold UpProvider, preserves, keeps.
  eapply hoare_bind with (R := fun _ => clients_ok q); [keeps_goal; walk|].
  intros s.
  eapply hoare_bind; [apply (useMemo_client_spec (chainId s))|].
  intros client. apply hoare_pure. intros Hclient.
  eapply hoare_bind; [apply (useMemo_readClient_spec (chainId s))|].
  intros readClient. apply hoare_pure. intros HreadClient.
  eapply hoare_bind with (R := fun _ => clients_ok q); [keeps_goal; walk|].
  intros p.
  eapply hoare_bind with (R := fun _ => clients_ok q).
  - apply hoare_modify. intros w (H0 & H1 & H2 & H3).
    split; [exact H0 | split; [exact H1 | split; [exact H2 |]]].
    intros d [= <-]. cbn. split; assumption.
  - intros u. keeps_goal. walk; intros; try assumption;
      try (eapply clients_ok_provider; eassumption).
Qed.

Lemma clients_ok_step (a : Action) : preserves (clients_ok q) (handle a).
Proof.
  destruct a.
  2-7: walk; intros; try assumption;
    try (eapply clients_ok_provider; eassumption).
  - (* Render *)
    unfold handle. apply keeps_bind; [walk|]. intros l.
    destruct l; [| |walk].
    1-2: apply keeps_bind;
      [walk; intros; assumption | intros u; apply UpProvider_clients].
  - (* ProviderContext *)
    destruct (provider w) as [p|] eqn:Hp; [|assumption].
    eapply clients_ok_provider; eassumption.
Qed.
End Clients.

Lemma clients_ok_after (window : bool) (acts : list Action) :
  clients_ok (provider (initial window)) (after window acts).
Proof.
  unfold after. apply run_trace_invariant.
  - intros a w Hw.
    eapply step_keeps; [apply clients_ok_step | intros e w' H; exact H | exact Hw].
  - split; [reflexivity | split; [|split]]; red; cbn; intros; discriminate.
Qed.

(** A chain id that is not a number.  A run of [init] stores
    [Number(answer)] whatever the answer to [eth_chainId] is; for an answer
    that is not numeric this is [NaN], which is not 0, and for which
    [provider && chainId] is falsy: the next render has a provider and a
    [chainId] different from 0, and no client. *)
Lemma nan_chainId_has_no_clients :
  let w := after true [Render; Emit (EvChainChanged (Num 42)); Render;
                       ResolveAccounts 1 (Fulfilled []);
                       ResolveChainId 1 (Fulfilled NaN); Render] in
  exists d, data w = Some d /\ v_provider d = true /\
            v_chainId d = NaN /\ v_chainId d <> Num 0 /\
            v_client d = None /\ v_readClient d = None.
Proof.
  cbv zeta. eexists. split; [vm_compute; reflexivity|].
  cbn. repeat split; discriminate.
Qed.

(** C10. In the value given to the context, [client] and [readClient] are
    [null] whenever the provider handle is [null] or [chainId] is 0 or
    [NaN]; otherwise both exist, on [lukso] when [chainId] is 42 and on
    [luksoTestnet] for every other [chainId]. *)
Theorem clients_follow_chainId (window : bool) (acts : list Action) (d : ContextValue) :
  data (after window acts) = Some d ->
  (window = false \/ v_chainId d = Num 0 \/ v_chainId d = NaN ->
     v_client d = None /\ v_readClient d = None) /\
  (window = true -> v_chainId d <> Num 0 -> v_chainId d <> NaN ->
     exists c r,
       v_client d = Some c /\ v_readClient d = Some r /\
       (v_chainId d = Num 42 -> chain c = lukso /\ chain r = lukso) /\
       (v_chainId d <> Num 42 -> chain c = luksoTestnet /\ chain r = luksoTestnet)).
Proof.
  intros Hd. destruct (clients_ok_after window acts) as (_ & _ & _ & H).
  destruct (H d Hd) as [Hc Hr]. clear H.
  unfold client_chain in *. split.
  - intros Hz.
    assert (Hn : is_some (provider (initial window)) && truthy (v_chainId d) = false).
    { destruct Hz as [-> | [-> | ->]]; [reflexivity | apply andb_false_r ..]. }
    rewrite Hn in *.
    destruct (v_client d), (v_readClient d); try discriminate. auto.
  - intros -> Hz Hnan. cbn in *.
    rewrite (proj2 (truthy_spec _) (conj Hz Hnan)) in *.
    destruct (v_client d) as [c|], (v_readClient d) as [r|]; try discriminate.
    exists c, r. cbn in *.
    destruct (strict_equal (v_chainId d) (Num 42)) eqn:E.
    + apply strict_equal_spec in E. repeat split; congruence.
    + assert (v_chainId d <> Num 42).
      { intros H. apply strict_equal_spec in H. congruence. }
      repeat split; congruence.
Qed.

Lemma clients_follow_chainId_witness :
  let acts := [Render; Emit (EvChainChanged (Num 42)); Render] in
  let d := {| v_provider := true;
              v_client := Some {| chain := lukso; oid := 0 |};
              v_chainId := Num 42;
              v_readClient := Some {| chain := lukso; oid := 1 |};
              v_accounts := []; v_contextAccounts := [];
              v_walletConnected := false; v_selectedAddress := None;
              v_isSearching := false |} in
  data (after true acts) = Some d /\
  exists c r,
    v_client d = Some c /\ v_readClient d = Some r /\
    (v_chainId d = Num 42 -> chain c = lukso /\ chain r = lukso) /\
    (v_chainId d <> Num 42 -> chain c = luksoTestnet /\ chain r = luksoTestnet).
Proof.
  cbv zeta.
  assert (Hd : data (after true [Render; Emit (EvChainChanged (Num 42)); Render]) =
               Some {| v_provider := true;
                       v_client := Some {| chain := lukso; oid := 0 |};
                       v_chainId := Num 42;
                       v_readClient := Some {| chain := lukso; oid := 1 |};
                       v_accounts := []; v_contextAccounts := [];
                       v_walletConnected := false; v_selectedAddress := None;
                       v_isSearching := false |})
    by (vm_compute; reflexivity).
  split; [exact Hd|].
  destruct (clients_follow_chainId true _ _ Hd) as [_ H].
  apply H; [reflexivity | discriminate | discriminate].
Defined.

(** * The hook *)

Lemma useContext_outside (inner outer : list Element) :
  Forall no_provider inner -> useContext (inner ++ outer) = useContext outer.
Proof.
  induction 1 as [|e t He _ IH]; cbn; [reflexivity|].
  destruct e; [destruct He | exact IH].
Qed.

(** C9. Outside every [UpContext] provider the hook throws the error
    "useUpProvider must be used within a UpProvider"; below a provider it
    returns the value of the nearest one, and below an [UpProvider] that has
    rendered, the value that this render built. *)
Theorem useUpProvider_spec (ancestors : list Element) :
  (Forall no_provider ancestors ->
   useUpProvider ancestors =
   Raise "useUpProvider must be used within a UpProvider") /\
  (forall inner value outer,
     Forall no_provider inner ->
     ancestors = inner ++ UpContext_Provider value :: outer ->
     useUpProvider ancestors = Return value) /\
  (forall inner w d outer,
     Forall no_provider inner -> data w = Some d ->
     ancestors = inner ++ children_ancestors w outer ->
     useUpProvider ancestors = Return d).
Proof.
  unfold useUpProvider. repeat split.
  - intros H. rewrite <- (app_nil_r ancestors).
    now rewrite (useContext_outside _ [] H).
  - intros inner value outer Hi ->. now rewrite (useContext_outside _ _ Hi).
  - intros inner w d outer Hi Hd ->. unfold children_ancestors.
    rewrite Hd. now rewrite (useContext_outside _ _ Hi).
Qed.

Lemma useUpProvider_spec_witness :
  let d := {| v_provider := true; v_client := None; v_chainId := Num 0;
              v_readClient := None; v_accounts := []; v_contextAccounts := [];
              v_walletConnected := false; v_selectedAddress := None;
              v_isSearching := false |} in
  useUpProvider [OtherElement; OtherElement] =
    Raise "useUpProvider must be used within a UpProvider" /\
  useUpProvider ([OtherElement] ++ UpContext_Provider d :: [OtherElement]) =
    Return d /\
  useUpProvider ([OtherElement] ++ children_ancestors (after true [Render]) []) =
    Return d.
Proof.
  cbv zeta. split; [|split].
  - apply (proj1 (useUpProvider_spec [OtherElement; OtherElement])).
    repeat constructor.
  - eapply (proj1 (proj2 (useUpProvider_spec _))); [|reflexivity].
    repeat constructor.
  - eapply (proj2 (proj2 (useUpProvider_spec _)));
      [| |reflexivity]; [repeat constructor | reflexivity].
Defined.

(** * Errors of the initialization queries *)

(** C4. Whenever a request that [init] is waiting for is rejected, the
    error is logged with [console.error], [init] ends normally (the promise
    it returned is fulfilled: nothing reaches the caller), no further call
    is made on the provider (no retry), and neither the state nor the value
    given to the context changes. *)
Theorem init_error_caught_and_logged (w : World) (k : nat) (e : JsError) :
  awaiting w k = true ->
  console (reject k e w) = console w ++ [e] /\
  option_map init_state (nth_error (runs (reject k e w)) k) =
    Some (Settled Normal) /\
  calls (reject k e w) = calls w /\
  state (reject k e w) = state w /\
  data (reject k e w) = data w.
Proof.
  unfold awaiting, reject. intros Ha.
  destruct (nth_error (runs w) k) as [[m i a c]|] eqn:Hr; [|discriminate].
  destruct i as [|l|s]; [| |discriminate].
  - unfold step, exec, handle, resume_accounts, init_after_accounts, init_catch,
      console_error.
    evaluate Hr. rewrite nth_error_update_nth, Hr, Nat.eqb_refl. cbn. auto.
  - unfold step, exec, handle, resume_chainId, init_after_chainId, init_catch,
      console_error.
    evaluate Hr. rewrite nth_error_update_nth, Hr, Nat.eqb_refl. cbn. auto.
Qed.

Lemma init_error_caught_and_logged_witness :
  let w := after true [Render; Emit (EvChainChanged (Num 42)); Render] in
  awaiting w 1 = true /\
  console (reject 1 "boom" w) = ["boom"] /\
  state (reject 1 "boom" w) = state w.
Proof.
  cbv zeta.
  pose proof (init_error_caught_and_logged
                (after true [Render; Emit (EvChainChanged (Num 42)); Render]) 1 "boom"
                eq_refl) as (H1 & _ & _ & H4 & _).
  split; [reflexivity | split; [exact H1 | exact H4]].
Defined.

(** * Initialization *)

(** C2, as stated, fails: the first render has [chainId = 0], hence no
    client, and [init] returns at its guard.  Mounting makes neither
    request, and answers to them store nothing. *)
Lemma mount_does_not_query : ~ queried_on_mount ["0xA"] (Num 42).
Proof.
  unfold queried_on_mount. intros (H & _). vm_compute in H.
  repeat (destruct H as [H|H]; [discriminate|]). exact H.
Qed.

(** What mounting does instead: three subscriptions, no request, and the
    initial state exposed. *)
Example calls_on_mount :
  calls (after true [Render]) =
  [CallOn "accountsChanged"; CallOn "chainChanged";
   CallOn "contextAccountsChanged"] /\
  state (after true [Render]) = state (initial true).
Proof. split; reflexivity. Qed.

(** C2, amended.  The queries are made by a run of the effect that has a
    client, which takes a [chainId] that is a number other than 0: such a
    run requests [eth_accounts] and waits; a run without a client makes no
    request.  When the answer to [eth_accounts] reaches a run that is still
    mounted, it is stored in [accounts] and [eth_chainId] is requested; when
    the answer to [eth_chainId] reaches a run that is still mounted, it is
    stored in [chainId].  An answer that reaches a run after its cleanup
    stores nothing and requests nothing. *)
Theorem init_queries_with_client (w : World) (k : nat) (r : EffectRun)
    (c : Client) (a x : option Address) (l : list Address) (n : number) :
  is_some (provider w) = true ->
  (calls (exec (effect (Some c, a, x)) w) =
     calls w ++ [CallRequest "eth_accounts"; CallOn "accountsChanged";
                 CallOn "chainChanged"; CallOn "contextAccountsChanged"] /\
   awaiting (exec (effect (Some c, a, x)) w) (List.length (runs w)) = true /\
   calls (exec (effect (None, a, x)) w) =
     calls w ++ [CallOn "accountsChanged"; CallOn "chainChanged";
                 CallOn "contextAccountsChanged"] /\
   awaiting (exec (effect (None, a, x)) w) (List.length (runs w)) = false) /\
  (nth_error (runs w) k = Some r -> init_state r = AwaitAccounts ->
   mounted r = true ->
   accounts (state (step w (ResolveAccounts k (Fulfilled l)))) = l /\
   calls (step w (ResolveAccounts k (Fulfilled l))) =
     calls w ++ [CallRequest "eth_chainId"] /\
   option_map init_state
     (nth_error (runs (step w (ResolveAccounts k (Fulfilled l)))) k) =
     Some (AwaitChainId l)) /\
  (nth_error (runs w) k = Some r -> init_state r = AwaitChainId l ->
   mounted r = true ->
   chainId (state (step w (ResolveChainId k (Fulfilled n)))) = n /\
   accounts (state (step w (ResolveChainId k (Fulfilled n)))) =
     accounts (state w) /\
   calls (step w (ResolveChainId k (Fulfilled n))) = calls w) /\
  (nth_error (runs w) k = Some r -> mounted r = false ->
   state (step w (ResolveAccounts k (Fulfilled l))) = state w /\
   calls (step w (ResolveAccounts k (Fulfilled l))) = calls w /\
   state (step w (ResolveChainId k (Fulfilled n))) = state w /\
   calls (step w (ResolveChainId k (Fulfilled n))) = calls w).
Proof.
  intros Hp. destruct (provider w) as [p|] eqn:Hw; [clear Hp | discriminate].
  split; [|split; [|split]].
  - unfold exec, effect, init_entry, calls, awaiting.
    repeat (evaluate Hw; rewrite ?update_nth_snoc, ?nth_error_snoc).
    rewrite <- !app_assoc. cbn. repeat split; reflexivity.
  - intros Hr Hi Hm. destruct r as [m i a' x']. cbn in Hi, Hm. subst m i.
    unfold step, exec, handle, resume_accounts, init_after_accounts,
      get_mounted, calls.
    repeat (evaluate Hr; rewrite ?Hw, ?nth_error_update_nth, ?Hr, ?Nat.eqb_refl).
    repeat split; reflexivity.
  - intros Hr Hi Hm. destruct r as [m i a' x']. cbn in Hi, Hm. subst m i.
    unfold step, exec, handle, resume_chainId, init_after_chainId,
      get_mounted, calls.
    repeat (evaluate Hr; rewrite ?Hw, ?nth_error_update_nth, ?Hr, ?Nat.eqb_refl).
    repeat split; reflexivity.
  - intros Hr Hm. destruct r as [m i a' x']. cbn in Hm. subst m.
    unfold step, exec, handle, resume_accounts, init_after_accounts,
      resume_chainId, init_after_chainId, get_mounted, calls.
    destruct i as [|l'|s0];
      repeat (evaluate Hr; rewrite ?Hw, ?nth_error_update_nth, ?Hr,
                ?Nat.eqb_refl);
      repeat split; reflexivity.
Qed.

Lemma init_queries_with_client_witness :
  let w := after true [Render; Emit (EvChainChanged (Num 42)); Render] in
  let w1 := step w (ResolveAccounts 1 (Fulfilled ["0xA"])) in
  let w2 := step w1 (ResolveChainId 1 (Fulfilled (Num 4201))) in
  is_some (provider w) = true /\
  accounts (state w1) = ["0xA"] /\
  calls w1 = calls w ++ [CallRequest "eth_chainId"] /\
  chainId (state w2) = Num 4201 /\ accounts (state w2) = ["0xA"].
Proof.
  cbv zeta.
  set (r1 := {| mounted := true; init_state := AwaitAccounts;
                account := None; contextAccount := None |}).
  set (r2 := {| mounted := true; init_state := AwaitChainId ["0xA"];
                account := None; contextAccount := None |}).
  set (c := {| chain := lukso; oid := 0 |}).
  assert (Hp : is_some (provider
                 (after true [Render; Emit (EvChainChanged (Num 42)); Render]))
               = true) by (vm_compute; reflexivity).
  assert (Hr1 : nth_error
                  (runs (after true [Render; Emit (EvChainChanged (Num 42));
                                     Render])) 1 = Some r1)
    by (vm_compute; reflexivity).
  assert (Hp2 : is_some (provider
                  (step (after true [Render; Emit (EvChainChanged (Num 42));
                                     Render])
                     (ResolveAccounts 1 (Fulfilled ["0xA"])))) = true)
    by (vm_compute; reflexivity).
  assert (Hr2 : nth_error
                  (runs (step (after true [Render;
                                           Emit (EvChainChanged (Num 42));
                                           Render])
                           (ResolveAccounts 1 (Fulfilled ["0xA"])))) 1 =
                Some r2)
    by (vm_compute; reflexivity).
  assert (Ha : accounts
                 (state (step (after true [Render;
                                           Emit (EvChainChanged (Num 42));
                                           Render])
                           (ResolveAccounts 1 (Fulfilled ["0xA"])))) = ["0xA"])
    by (vm_compute; reflexivity).
  split; [exact Hp|].
  destruct (init_queries_with_client _ 1 r1 c None None ["0xA"] (Num 4201) Hp)
    as (_ & H1 & _).
  destruct (H1 Hr1 eq_refl eq_refl) as (H11 & H12 & _).
  destruct (init_queries_with_client _ 1 r2 c None None ["0xA"] (Num 4201) Hp2)
    as (_ & _ & H2 & _).
  destruct (H2 Hr2 eq_refl eq_refl) as (H21 & H22 & _).
  split; [exact H11 | split; [exact H12 | split; [exact H21|]]].
  rewrite H22. exact Ha.
Defined.

(** The same along a history: once a [chainChanged] event has made
    [chainId] nonzero, the next render runs the effect with a client and
    the two queries are made and stored. *)
Example queries_after_chainChanged :
  let w := after true [Render; Emit (EvChainChanged (Num 42)); Render;
                       ResolveAccounts 1 (Fulfilled ["0xA"]);
                       ResolveChainId 1 (Fulfilled (Num 42))] in
  In (CallRequest "eth_accounts") (calls w) /\
  In (CallRequest "eth_chainId") (calls w) /\
  accounts (state w) = ["0xA"] /\ chainId (state w) = Num 42.
Proof. vm_compute. intuition. Qed.

(** A render between the two answers.  The answer to [eth_accounts] has
    changed the first account, so the render that follows runs the cleanup
    of the run that asked; the answer to its [eth_chainId] then comes too
    late and is dropped, while the new run has asked for the accounts
    again. *)
Example render_between_answers :
  let w := after true [Render; Emit (EvChainChanged (Num 42)); Render;
                       ResolveAccounts 1 (Fulfilled ["0xA"]); Render;
                       ResolveChainId 1 (Fulfilled (Num 4201))] in
  option_map mounted (nth_error (runs w) 1) = Some false /\
  chainId (state w) = Num 42 /\
  awaiting w 2 = true /\
  calls w =
    [CallOn "accountsChanged"; CallOn "chainChanged";
     CallOn "contextAccountsChanged";
     CallRemoveListener "accountsChanged";
     CallRemoveListener "contextAccountsChanged";
     CallRemoveListener "chainChanged";
     CallRequest "eth_accounts";
     CallOn "accountsChanged"; CallOn "chainChanged";
     CallOn "contextAccountsChanged";
     CallRequest "eth_chainId";
     CallRemoveListener "accountsChanged";
     CallRemoveListener "contextAccountsChanged";
     CallRemoveListener "chainChanged";
     CallRequest "eth_accounts";
     CallOn "accountsChanged"; CallOn "chainChanged";
     CallOn "contextAccountsChanged"].
Proof. vm_compute. repeat split; reflexivity. Qed.

(** * The order of the two requests *)




(** * The connection flag *)

(** C1 fails on the code.  The handlers compute [walletConnected] from the
    [account] and [contextAccount] of the render that created them.  When
    the provider reports the accounts and then the context accounts before
    React has run the effect again, each handler combines the new array
    with the stale, empty other one: both arrays end with a first entry and
    the flag stays [false], also after the next render, since [init] does
    not run without a client. *)
Theorem stale_handlers_break_flag :
  let w := after true [Render;
                       Emit (EvAccountsChanged ["0xA"]);
                       Emit (EvContextAccountsChanged ["0xC"]);
                       Render] in
  accounts (state w) = ["0xA"] /\
  contextAccounts (state w) = ["0xC"] /\
  walletConnected (state w) = false /\
  option_map v_walletConnected (data w) = Some false /\
  option_map v_accounts (data w) = Some ["0xA"] /\
  option_map v_contextAccounts (data w) = Some ["0xC"] /\
  awaiting w 0 = false /\ awaiting w 1 = false /\
  ~ connection_reflects_arrays (state w).
Proof.
  cbv zeta. repeat split; try reflexivity.
  intros [_ H]. specialize (H (conj eq_refl eq_refl)). vm_compute in H.
  discriminate.
Qed.

(** The flag is also left behind when [init] stops half way: the accounts
    are stored before [eth_chainId] is asked, and a rejection of that
    request skips the update of the flag. *)
Example rejected_chainId_breaks_flag :
  let w := after true [Render;
                       Emit (EvContextAccountsChanged ["0xC"]); Render;
                       Emit (EvChainChanged (Num 42)); Render;
                       ResolveAccounts 2 (Fulfilled ["0xA"]);
                       ResolveChainId 2 (Rejected "e")] in
  accounts (state w) = ["0xA"] /\ contextAccounts (state w) = ["0xC"] /\
  walletConnected (state w) = false /\ console w = ["e"].
Proof. cbv zeta. repeat split; reflexivity. Qed.

(** What the handlers do achieve: when they were created by a render that
    saw the current first entries, handling an event leaves the flag in
    agreement with the arrays. *)
Lemma fresh_handlers_keep_flag (acts : list Action) (e : ProviderEvent) :
  handlers_fresh (after true acts) ->
  connection_reflects_arrays (state (after true acts)) ->
  connection_reflects_arrays (state (step (after true acts) (Emit e))).
Proof.
  intros (k & r & Hk & Hr & Ha & Hc) Hinv.
  destruct (effect_invariant_after true acts) as [Hw _].
  unfold wired in Hw. rewrite Hk in Hw.
  destruct Hw as (r' & p & Hr' & _ & Hp & Hl).
  rewrite Hr in Hr'. injection Hr' as <-.
  unfold step, exec, handle, emit.
  destruct e as [l|n|l]; evaluate Hp; rewrite Hl; cbn.
  - unfold connection_reflects_arrays. cbn. rewrite Hc.
    rewrite andb_true_iff. tauto.
  - exact Hinv.
  - unfold connection_reflects_arrays. cbn. rewrite Ha.
    rewrite andb_true_iff. tauto.
Qed.

(** * Who changes the state *)

(** C3, as stated, fails: the context value hands [setSelectedAddress] and
    [setIsSearching] to every descendant, and a call of one of them, which
    is not code of the component, changes its state. *)
Lemma consumer_mutates_state :
  let w := after true [Render] in
  let a := Consumer (CallSetSelectedAddress (Some "0xA")) in
  component_code a = false /\ state (step w a) <> state w.
Proof. cbv zeta. split; [reflexivity | vm_compute; discriminate]. Qed.

Lemma step_frame {X} (f : World -> X) (a : Action) (w : World) :
  (forall x, preserves (fun w' => f w' = x) (handle a)) ->
  f (step w a) = f w.
Proof.
  intros H. eapply (step_keeps (fun w' => f w' = f w));
    [apply H | intros e w' Hw'; exact Hw' | reflexivity].
Qed.

(** C3, amended.  [chainId], [accounts], [contextAccounts] and
    [walletConnected] are written only by the handlers of provider events
    and by [init]; [selectedAddress] and [isSearching] are never written by
    the component, only through the two setters it exposes; rendering,
    unmounting and the provider changing its own properties write
    nothing. *)
Theorem state_writers (w : World) (a : Action) :
  match a with
  | Emit _ | ResolveAccounts _ _ | ResolveChainId _ _ =>
      ui_state (state (step w a)) = ui_state (state w)
  | Consumer _ =>
      wallet_state (state (step w a)) = wallet_state (state w)
  | Render | Unmount | ProviderContext _ =>
      state (step w a) = state w
  end.
Proof.
  destruct a.
  - apply (step_frame state); intros x; walk; intros; assumption.
  - apply (step_frame state); intros x; walk; intros; assumption.
  - apply (step_frame (fun w' => ui_state (state w'))); intros x; walk;
      intros; assumption.
  - apply (step_frame state); intros x; walk. intros w0 H.
    destruct (provider w0); assumption.
  - apply (step_frame (fun w' => ui_state (state w'))); intros x; walk;
      intros; assumption.
  - apply (step_frame (fun w' => ui_state (state w'))); intros x; walk;
      intros; assumption.
  - apply (step_frame (fun w' => wallet_state (state w'))); intros x; walk;
      intros; assumption.
Qed.


(** * Further properties of the component *)

(** ** No step throws *)

(** From a world that satisfies the invariant of the effect, the code run
    by an action returns. *)
Lemma handle_returns (a : Action) (w : World) :
  effect_invariant w -> exists w', handle a w = (w', Return tt).
Proof.
  intros Hw. pose proof (effect_invariant_step a w Hw) as H.
  destruct (handle a w) as [w' [[]|e]]; [now exists w' | destruct H].
Qed.

(** X1. Along every history, whatever happens next (a render, an unmount, a
    provider event, the settlement of a request, a call of a setter), the
    code of the component ends normally: nothing is thrown into React or
    into the provider that emits the event. *)
Theorem no_step_throws (window : bool) (acts : list Action) (a : Action) :
  snd (handle a (after window acts)) = Return tt.
Proof.
  destruct (handle_returns a (after window acts)
              (effect_invariant_after window acts)) as [w' H].
  now rewrite H.
Qed.

(** ** Late answers *)

(** X2. The [mounted] variable does its work: when a request of [init] is
    settled after the cleanup of its run, fulfilled or rejected, the state is
    not written and no further call is made on the provider; [init] ends. *)
Theorem late_answers_write_nothing (w : World) (k : nat) (r : EffectRun)
    (ra : Result (list Address)) (rc : Result number) :
  nth_error (runs w) k = Some r -> mounted r = false ->
  state (step w (ResolveAccounts k ra)) = state w /\
  calls (step w (ResolveAccounts k ra)) = calls w /\
  state (step w (ResolveChainId k rc)) = state w /\
  calls (step w (ResolveChainId k rc)) = calls w /\
  (init_state r = AwaitAccounts ->
   awaiting (step w (ResolveAccounts k ra)) k = false) /\
  (forall l, init_state r = AwaitChainId l ->
   awaiting (step w (ResolveChainId k rc)) k = false).
Proof.
  intros Hr Hm. destruct r as [m i a c]. cbn in Hm. subst m.
  unfold step, exec, handle, resume_accounts, resume_chainId,
    init_after_accounts, init_after_chainId, init_catch, console_error,
    get_mounted, awaiting, calls.
  destruct i as [|l|s]; destruct ra as [la|ea]; destruct rc as [n|ec];
    evaluate Hr;
    repeat (rewrite ?nth_error_update_nth, ?Hr, ?Nat.eqb_refl; cbn);
    repeat split; try reflexivity; try discriminate.
Qed.

Lemma late_answers_write_nothing_witness :
  let w := after true [Render; Emit (EvChainChanged (Num 42)); Render;
                       Emit (EvAccountsChanged ["0xB"]); Render] in
  option_map mounted (nth_error (runs w) 1) = Some false /\
  awaiting w 1 = true /\
  state (step w (ResolveAccounts 1 (Fulfilled ["0xA"]))) = state w.
Proof.
  cbv zeta. split; [vm_compute; reflexivity | split; [vm_compute; reflexivity|]].
  refine (proj1 (late_answers_write_nothing
           (after true [Render; Emit (EvChainChanged (Num 42)); Render;
                        Emit (EvAccountsChanged ["0xB"]); Render]) 1
           {| mounted := false; init_state := AwaitAccounts;
              account := None; contextAccount := None |}
           (Fulfilled ["0xA"]) (Fulfilled (Num 42)) _ _));
    vm_compute; reflexivity.
Defined.


(** ** The end of [init] *)

(** X3. When the answer to [eth_chainId] reaches a run that is still
    mounted, [init] finishes in one go: [chainId] is the answer,
    [contextAccounts] is read from the provider's [contextAccounts]
    property as it is then, and [walletConnected] is computed from that list
    and from the accounts that [eth_accounts] had returned; nothing else is
    requested.  If [accounts] still holds that answer, the flag agrees with
    the two arrays. *)
Theorem init_completion (w : World) (k : nat) (r : EffectRun)
    (p : UPClientProvider) (l : list Address) (n : number) :
  nth_error (runs w) k = Some r -> mounted r = true ->
  init_state r = AwaitChainId l -> provider w = Some p ->
  let w' := step w (ResolveChainId k (Fulfilled n)) in
  chainId (state w') = n /\
  contextAccounts (state w') = p_contextAccounts p /\
  walletConnected (state w') =
    is_some (hd_error l) && is_some (hd_error (p_contextAccounts p)) /\
  accounts (state w') = accounts (state w) /\
  ui_state (state w') = ui_state (state w) /\
  calls w' = calls w /\ awaiting w' k = false /\
  (accounts (state w) = l -> connection_reflects_arrays (state w')).
Proof.
  intros Hr Hm Hi Hp. destruct r as [m i a c]. cbn in Hm, Hi. subst m i.
  cbv zeta.
  unfold step, exec, handle, resume_chainId, init_after_chainId, get_mounted,
    awaiting, calls, connection_reflects_arrays.
  evaluate Hr. rewrite !Hp.
  repeat (evaluate Hr; rewrite ?Hp, ?nth_error_update_nth, ?Hr, ?Nat.eqb_refl).
  repeat split; try reflexivity.
  - apply andb_true_iff in H0. rewrite H. tauto.
  - apply andb_true_iff in H0. tauto.
  - rewrite H. intros [H1 H2]. now rewrite H1, H2.
Qed.

Lemma init_completion_witness :
  let w := after true [Render; ProviderContext ["0xC"];
                       Emit (EvChainChanged (Num 42)); Render;
                       ResolveAccounts 1 (Fulfilled ["0xA"])] in
  let w' := step w (ResolveChainId 1 (Fulfilled (Num 4201))) in
  option_map init_state (nth_error (runs w) 1) = Some (AwaitChainId ["0xA"]) /\
  chainId (state w') = Num 4201 /\ contextAccounts (state w') = ["0xC"] /\
  walletConnected (state w') = true.
Proof.
  cbv zeta. split; [vm_compute; reflexivity|].
  pose proof (init_completion
                (after true [Render; ProviderContext ["0xC"];
                             Emit (EvChainChanged (Num 42)); Render;
                             ResolveAccounts 1 (Fulfilled ["0xA"])]) 1
                {| mounted := true; init_state := AwaitChainId ["0xA"];
                   account := None; contextAccount := None |}
                {| p_listeners := registered 1 None None;
                   p_contextAccounts := ["0xC"];
                   p_calls :=
                     [CallOn "accountsChanged"; CallOn "chainChanged";
                      CallOn "contextAccountsChanged";
                      CallRemoveListener "accountsChanged";
                      CallRemoveListener "contextAccountsChanged";
                      CallRemoveListener "chainChanged";
                      CallRequest "eth_accounts";
                      CallOn "accountsChanged"; CallOn "chainChanged";
                      CallOn "contextAccountsChanged";
                      CallRequest "eth_chainId"];
                   p_uses := [PassedTo "custom"; PassedTo "custom"] |}
                ["0xA"] (Num 4201)) as H.
  destruct H as (H1 & H2 & H3 & _); try (vm_compute; reflexivity).
  split; [exact H1 | split; [exact H2 | exact H3]].
Defined.

(** ** What a handler leaves alone *)

(** X4. In any world, an [accountsChanged] event leaves [chainId] and
    [contextAccounts] as they are, a [contextAccountsChanged] event leaves
    [chainId] and [accounts], a [chainChanged] event leaves the two arrays and
    [walletConnected]; none touches [selectedAddress] or [isSearching], the
    listeners, the calls made on the provider or the runs of the effect. *)
Theorem events_frame (w : World) (l : list Address) (n : number) :
  (chainId (state (step w (Emit (EvAccountsChanged l)))) = chainId (state w) /\
   contextAccounts (state (step w (Emit (EvAccountsChanged l)))) =
     contextAccounts (state w)) /\
  (chainId (state (step w (Emit (EvContextAccountsChanged l)))) =
     chainId (state w) /\
   accounts (state (step w (Emit (EvContextAccountsChanged l)))) =
     accounts (state w)) /\
  (accounts (state (step w (Emit (EvChainChanged n)))) = accounts (state w) /\
   contextAccounts (state (step w (Emit (EvChainChanged n)))) =
     contextAccounts (state w) /\
   walletConnected (state (step w (Emit (EvChainChanged n)))) =
     walletConnected (state w)) /\
  forall e,
    ui_state (state (step w (Emit e))) = ui_state (state w) /\
    provider (step w (Emit e)) = provider w /\
    runs (step w (Emit e)) = runs w /\
    console (step w (Emit e)) = console w.
Proof.
  repeat split.
  - apply (step_frame (fun w' => chainId (state w'))); intros x; walk;
      intros; assumption.
  - apply (step_frame (fun w' => contextAccounts (state w'))); intros x; walk;
      intros; assumption.
  - apply (step_frame (fun w' => chainId (state w'))); intros x; walk;
      intros; assumption.
  - apply (step_frame (fun w' => accounts (state w'))); intros x; walk;
      intros; assumption.
  - apply (step_frame (fun w' => accounts (state w'))); intros x; walk;
      intros; assumption.
  - apply (step_frame (fun w' => contextAccounts (state w'))); intros x; walk;
      intros; assumption.
  - apply (step_frame (fun w' => walletConnected (state w'))); intros x; walk;
      intros; assumption.
  - apply (step_frame (fun w' => ui_state (state w'))); intros x; walk;
      intros; assumption.
  - apply (step_frame provider); intros x; walk; intros; assumption.
  - apply (step_frame runs); intros x; walk; intros; assumption.
  - apply (step_frame console); intros x; walk; intros; assumption.
Qed.


(** ** Runs that can still write *)

Lemma hoare_conj {A} (P1 P2 : World -> Prop) (m : M A)
    (Q1 Q2 : A -> World -> Prop) (E1 E2 : JsError -> World -> Prop) :
  hoare P1 m Q1 E1 -> hoare P2 m Q2 E2 ->
  hoare (fun w => P1 w /\ P2 w) m (fun a w => Q1 a w /\ Q2 a w)
    (fun e w => E1 e w /\ E2 e w).
Proof.
  intros H1 H2 w [Hw1 Hw2]. specialize (H1 w Hw1). specialize (H2 w Hw2).
  destruct (m w) as [w' [a|e]]; auto.
Qed.

Lemma all_idle_current_only (w : World) : all_idle w -> current_only w.
Proof. intros H k r Hr Hm Hs. destruct (H k r Hr Hm Hs). Qed.

Lemma effect_cleanup_idle (k : nat) (lc : Lifecycle) :
  hoare (fun w => (wired w /\ cleanup w = Some k) /\
                  current_only w /\ lifecycle w = lc)
    (effect_cleanup k)
    (fun _ w => all_idle w /\ lifecycle w = lc)
    (fun _ _ => False).
Proof.
  intros w ((Hw & Hk) & Hc & Hl). unfold wired in Hw. rewrite Hk in Hw.
  destruct Hw as (r & p & Hr & Hm & Hp & Hreg).
  unfold effect_cleanup. evaluate Hp. rewrite Hr. evaluate Hp.
  split; [|exact Hl].
  intros j rj Hj Hmj Hsj. cbn in Hj.
  rewrite nth_error_update_nth in Hj.
  destruct (Nat.eqb_spec j k) as [->|Hjk].
  - rewrite Hr in Hj. cbn in Hj. injection Hj as <-. discriminate.
  - specialize (Hc j rj Hj Hmj Hsj). congruence.
Qed.

Lemma run_pending_cleanup_idle (lc : Lifecycle) :
  hoare (fun w => wired w /\ current_only w /\ lifecycle w = lc)
    run_pending_cleanup
    (fun _ w => all_idle w /\ cleanup w = None /\ lifecycle w = lc)
    (fun _ _ => False).
Proof.
  unfold run_pending_cleanup.
  eapply hoare_bind.
  - apply hoare_gets with
      (Q := fun c w => (wired w /\ current_only w /\ lifecycle w = lc) /\
                       c = cleanup w).
    auto.
  - intros [k|].
    + eapply hoare_bind.
      * eapply hoare_conseq; [apply (effect_cleanup_idle k lc) | | |].
        -- intros w ((Hw & Hc & Hl) & Hk). auto.
        -- intros u w H. exact H.
        -- auto.
      * intros u. apply hoare_modify. intros w (Hi & Hl). cbn. auto.
    + apply hoare_ret. intros w ((Hw & Hc & Hl) & Hk).
      repeat split; auto.
      intros j rj Hj Hmj Hsj. specialize (Hc j rj Hj Hmj Hsj). congruence.
Qed.

Lemma effect_current_only (d : Deps) (lc : Lifecycle) :
  hoare (fun w => all_idle w /\ lifecycle w = lc)
    (effect d)
    (fun _ w => current_only w /\ lifecycle w = lc)
    (fun _ _ => False).
Proof.
  destruct d as [[c a] x]. intros w (Hi & Hl). unfold effect, init_entry.
  assert (Hold : forall j rj y s,
    nth_error (runs w ++ [y]) j = Some rj -> j <> List.length (runs w) ->
    mounted rj = true -> suspended rj = true -> s).
  { intros j rj y s Hj Hne Hm Hs. exfalso.
    destruct (Nat.lt_ge_cases j (List.length (runs w))) as [Hlt|Hge].
    - rewrite nth_error_app1 in Hj by exact Hlt. exact (Hi j rj Hj Hm Hs).
    - rewrite nth_error_app2 in Hj by exact Hge.
      destruct (j - List.length (runs w)) as [|i] eqn:Hji; [lia|].
      destruct i; discriminate. }
  destruct (provider w) as [p|] eqn:Hp; destruct c as [c|]; evaluate Hp;
    rewrite update_nth_snoc; (split; [|exact Hl]);
    intros j rj Hj Hm Hs;
    (destruct (Nat.eq_dec j (List.length (runs w))) as [->|Hne];
     [ try reflexivity
     | cbn in Hj; eapply (Hold j rj); eassumption ]).
  all: cbn in Hj; rewrite nth_error_snoc in Hj; injection Hj as <-; discriminate.
Qed.

Lemma useEffect_current_only (d : Deps) :
  hoare (fun w => effect_ready w /\ current_only w)
    (useEffect d)
    (fun _ w => current_only w /\ lifecycle w = Mounted)
    (fun _ _ => False).
Proof.
  unfold useEffect.
  eapply hoare_bind.
  { apply hoare_gets with
      (Q := fun old w => wired w /\ (old = None -> cleanup w = None) /\
                         current_only w /\ lifecycle w = Mounted).
    intros w ((Hw & H1 & H2 & Hl) & Hc). auto. }
  intros old. eapply hoare_bind.
  { apply hoare_modify with
      (Q := fun _ w => wired w /\ (old = None -> cleanup w = None) /\
                       current_only w /\ lifecycle w = Mounted).
    intros w H. exact H. }
  intros u. destruct old as [d0|].
  - destruct (same_deps d0 d).
    + apply hoare_ret. intros w (Hw & H1 & Hc & Hl). auto.
    + eapply hoare_bind.
      * eapply hoare_conseq; [apply (run_pending_cleanup_idle Mounted) | | |].
        -- intros w (Hw & H1 & Hc & Hl). auto.
        -- intros a w H. exact H.
        -- auto.
      * intros u'. eapply hoare_conseq; [apply (effect_current_only d Mounted) | | |].
        -- intros w (Hi & Hk & Hl). auto.
        -- intros a w H. exact H.
        -- auto.
  - eapply hoare_conseq; [apply (effect_current_only d Mounted) | | |].
    + intros w (Hw & H1 & Hc & Hl). split; [|exact Hl].
      intros j rj Hj Hm Hs. specialize (Hc j rj Hj Hm Hs).
      rewrite (H1 eq_refl) in Hc. discriminate.
    + intros a w H. exact H.
    + auto.
Qed.

(** A use of the provider that leaves its listeners alone keeps what the
    effect relies on. *)
Ltac provider_used :=
  lazymatch goal with
  | Hp : provider ?w = Some ?p, H : effect_ready ?w /\ _ |- _ =>
      destruct H as [? ?]; split;
      [now apply effect_ready_provider with (p := p) | assumption]
  end.

Lemma UpProvider_current_only :
  hoare (fun w => effect_ready w /\ current_only w) UpProvider
    (fun _ w => current_only w /\ lifecycle w = Mounted) (fun _ _ => False).
Proof.
  unfold UpProvider.
  eapply hoare_bind with (R := fun _ w => effect_ready w /\ current_only w);
    [keeps_goal; walk; intros; assumption|].
  intros s.
  eapply hoare_bind with (R := fun _ w => effect_ready w /\ current_only w);
    [keeps_goal; walk; intros; try assumption; provider_used|].
  intros client.
  eapply hoare_bind with (R := fun _ w => effect_ready w /\ current_only w);
    [keeps_goal; walk; intros; try assumption; provider_used|].
  intros readClient.
  eapply hoare_bind with (R := fun _ w => effect_ready w /\ current_only w);
    [keeps_goal; walk; intros; assumption|].
  intros p.
  eapply hoare_bind with (R := fun _ w => effect_ready w /\ current_only w);
    [keeps_goal; walk; intros; assumption|].
  intros u. apply useEffect_current_only.
Qed.

(** Settling a request of a suspended run keeps [current_only]. *)
Lemma current_only_set_init (w w' : World) (k : nat) (r : EffectRun) (s : InitState) :
  current_only w -> nth_error (runs w) k = Some r -> suspended r = true ->
  cleanup w' = cleanup w ->
  runs w' = update_nth k
              (fun r0 => {| mounted := mounted r0; init_state := s;
                            account := account r0;
                            contextAccount := contextAccount r0 |}) (runs w) ->
  current_only w'.
Proof.
  intros Hc Hr Hs Hk Hruns j rj Hj Hm Hsj. rewrite Hk.
  rewrite Hruns, nth_error_update_nth in Hj.
  destruct (Nat.eqb_spec j k) as [->|Hjk].
  - rewrite Hr in Hj. cbn in Hj. injection Hj as <-. cbn in Hm.
    exact (Hc k r Hr Hm Hs).
  - exact (Hc j rj Hj Hm Hsj).
Qed.

Lemma quiet_resolve_accounts (w : World) (k : nat) (ra : Result (list Address)) :
  quiet w -> quiet (step w (ResolveAccounts k ra)).
Proof.
  intros [Hc Hu]. unfold step, exec, handle, resume_accounts.
  evaluate Hc.
  destruct (nth_error (runs w) k) as [[m i a c]|] eqn:Hr; [|now split].
  destruct i as [|l|s]; try now split.
  assert (Hs : suspended {| mounted := m; init_state := AwaitAccounts;
                            account := a; contextAccount := c |} = true)
    by reflexivity.
  unfold init_after_accounts, init_catch, console_error, get_mounted.
  destruct ra as [l|e]; destruct m; destruct (provider w) as [p|] eqn:Hp;
    evaluate Hp; rewrite ?Hr; evaluate Hp;
    (split; [eapply current_only_set_init;
             [exact Hc | exact Hr | exact Hs | reflexivity | reflexivity]
            | exact Hu]).
Qed.

Lemma quiet_resolve_chainId (w : World) (k : nat) (rc : Result number) :
  quiet w -> quiet (step w (ResolveChainId k rc)).
Proof.
  intros [Hc Hu]. unfold step, exec, handle, resume_chainId.
  evaluate Hc.
  destruct (nth_error (runs w) k) as [[m i a c]|] eqn:Hr; [|now split].
  destruct i as [|l|s]; try now split.
  assert (Hs : suspended {| mounted := m; init_state := AwaitChainId l;
                            account := a; contextAccount := c |} = true)
    by reflexivity.
  unfold init_after_chainId, init_catch, console_error, get_mounted.
  destruct rc as [n|e]; destruct m; destruct (provider w) as [p|] eqn:Hp;
    evaluate Hp; rewrite ?Hr; evaluate Hp; rewrite ?Hr; evaluate Hp;
    (split; [eapply current_only_set_init;
             [exact Hc | exact Hr | exact Hs | reflexivity | reflexivity]
            | exact Hu]).
Qed.

Lemma quiet_render :
  hoare (fun w => effect_invariant w /\ quiet w) (handle Render)
    (fun _ => quiet) (fun _ _ => False).
Proof.
  unfold handle. eapply hoare_bind.
  { apply hoare_gets with
      (Q := fun l w => (effect_invariant w /\ quiet w) /\ l = lifecycle w).
    auto. }
  intros l.
  assert (Hrender : forall l0, l0 <> Unmounted ->
    hoare (fun w => (effect_invariant w /\ quiet w) /\ l0 = lifecycle w)
      (modify (set_lifecycle Mounted);; UpProvider)
      (fun _ => quiet) (fun _ _ => False)).
  { intros l0 Hl0.
    eapply hoare_bind with (R := fun _ w => effect_ready w /\ current_only w).
    - apply hoare_modify.
      intros w (((Hw & H1 & H2 & H3) & (Hc & _)) & Hl).
      split; [|exact Hc]. unfold effect_ready. cbn. repeat split; auto.
      intros Hd Hp. destruct l0; [| | congruence].
      + symmetry in Hl. now specialize (H1 Hl).
      + symmetry in Hl. now apply (H3 Hl).
    - intros u. eapply hoare_conseq; [apply UpProvider_current_only | | |].
      + auto.
      + intros a w [Hc Hl]. split; [exact Hc | rewrite Hl; discriminate].
      + auto. }
  destruct l; [apply Hrender; discriminate | apply Hrender; discriminate |].
  apply hoare_ret. now intros w [[_ Hq] _].
Qed.

Lemma quiet_unmount :
  hoare (fun w => effect_invariant w /\ quiet w) (handle Unmount)
    (fun _ => quiet) (fun _ _ => False).
Proof.
  unfold handle. eapply hoare_bind.
  { apply hoare_gets with
      (Q := fun l w => (effect_invariant w /\ quiet w) /\ l = lifecycle w).
    auto. }
  intros l. destruct l; try (apply hoare_ret; now intros w [[_ Hq] _]).
  eapply hoare_bind.
  - eapply hoare_conseq; [apply (run_pending_cleanup_idle Mounted) | | |].
    + intros w (((Hw & _) & (Hc & _)) & Hl). auto.
    + intros u w H. exact H.
    + auto.
  - intros u. apply hoare_modify. intros w (Hi & Hk & _). split.
    + apply all_idle_current_only. exact Hi.
    + intros _. exact Hk.
Qed.

Lemma quiet_step (w : World) (a : Action) :
  effect_invariant w -> quiet w -> quiet (step w a).
Proof.
  intros Hinv Hq. destruct a.
  - (* Render *)
    pose proof (quiet_render w (conj Hinv Hq)) as H. unfold step, exec.
    destruct (handle Render w) as [w' [u|e]]; [exact H | destruct H].
  - (* Unmount *)
    pose proof (quiet_unmount w (conj Hinv Hq)) as H. unfold step, exec.
    destruct (handle Unmount w) as [w' [u|e]]; [exact H | destruct H].
  - (* Emit *)
    eapply (step_keeps quiet (fun _ => quiet));
      [walk; intros; assumption | auto | exact Hq].
  - (* ProviderContext *)
    eapply (step_keeps quiet (fun _ => quiet)); [walk | auto | exact Hq].
    intros w0 H. destruct (provider w0); exact H.
  - now apply quiet_resolve_accounts.
  - now apply quiet_resolve_chainId.
  - eapply (step_keeps quiet (fun _ => quiet));
      [walk; intros; assumption | auto | exact Hq].
Qed.

Lemma quiet_after (window : bool) (acts : list Action) :
  quiet (after window acts).
Proof.
  unfold after.
  apply (run_trace_invariant (fun w => effect_invariant w /\ quiet w)).
  - intros a w [Hi Hq]. split.
    + eapply step_keeps; [apply effect_invariant_step | | exact Hi].
      intros e w' [].
    + now apply quiet_step.
  - split.
    + apply (effect_invariant_after window []).
    + split; [|discriminate]. intros k r Hr. now destruct k.
Qed.

(** ** After the unmount *)

Lemma frozen_step (s0 : State) (c0 : list ProviderCall) (w : World) (a : Action) :
  from_outside a = true -> frozen s0 c0 w -> frozen s0 c0 (step w a).
Proof.
  intros Ha (Hl & Hk & Hi & Hls & Hs & Hc). unfold step, exec.
  destruct a; try discriminate; unfold handle.
  - unfold emit, listeners in *. destruct (provider w) as [p|] eqn:Hp;
      evaluate Hp; rewrite ?Hls; cbn; unfold frozen, listeners;
      rewrite ?Hp; repeat split; assumption.
  - unfold frozen, listeners, calls in *.
    destruct (provider w) as [p|] eqn:Hp; evaluate Hp;
      rewrite ?Hp; repeat split; assumption.
  - unfold resume_accounts. evaluate Hl.
    destruct (nth_error (runs w) k) as [[m i x y]|] eqn:Hr;
      [|repeat split; assumption].
    destruct i as [|l|s]; try (repeat split; assumption).
    destruct m; [exfalso; exact (Hi k _ Hr eq_refl eq_refl)|].
    unfold init_after_accounts, init_catch, console_error, get_mounted.
    destruct r as [l|e]; evaluate Hr; rewrite ?Hr; evaluate Hr;
      (repeat split; try assumption);
      intros j rj Hj Hm Hsus; cbn in Hj;
      rewrite nth_error_update_nth in Hj;
      (destruct (Nat.eqb_spec j k) as [->|Hjk];
       [rewrite Hr in Hj; cbn in Hj; injection Hj as <-; discriminate
       |exact (Hi j rj Hj Hm Hsus)]).
  - unfold resume_chainId. evaluate Hl.
    destruct (nth_error (runs w) k) as [[m i x y]|] eqn:Hr;
      [|repeat split; assumption].
    destruct i as [|l|s]; try (repeat split; assumption).
    destruct m; [exfalso; exact (Hi k _ Hr eq_refl eq_refl)|].
    unfold init_after_chainId, init_catch, console_error, get_mounted.
    destruct r as [n|e]; evaluate Hr; rewrite ?Hr; evaluate Hr;
      (repeat split; try assumption);
      intros j rj Hj Hm Hsus; cbn in Hj;
      rewrite nth_error_update_nth in Hj;
      (destruct (Nat.eqb_spec j k) as [->|Hjk];
       [rewrite Hr in Hj; cbn in Hj; injection Hj as <-; discriminate
       |exact (Hi j rj Hj Hm Hsus)]).
  - evaluate Hl. destruct c; repeat split; assumption.
Qed.

Lemma unmounted_frozen (window : bool) (acts : list Action) :
  lifecycle (after window acts) = Unmounted ->
  frozen (state (after window acts)) (calls (after window acts))
    (after window acts).
Proof.
  intros Hl. destruct (quiet_after window acts) as [Hc Hu].
  destruct (effect_invariant_after window acts) as [Hw _].
  specialize (Hu Hl). unfold wired in Hw. rewrite Hu in Hw.
  repeat split; auto.
  intros k r Hr Hm Hs. specialize (Hc k r Hr Hm Hs). congruence.
Qed.

Lemma frozen_run (s0 : State) (c0 : list ProviderCall) (more : list Action) :
  forallb from_outside more = true ->
  forall w, frozen s0 c0 w -> frozen s0 c0 (run_trace more w).
Proof.
  induction more as [|a t IH]; intros Hm w Hw; cbn; [exact Hw|].
  cbn in Hm. apply andb_true_iff in Hm. destruct Hm as [Ha Ht].
  apply IH; [exact Ht|]. now apply frozen_step.
Qed.

(** X5. Once the component is unmounted it is at rest for good: whatever
    reaches it afterwards (provider events, changes of the provider's
    [contextAccounts], late answers to the requests of [init], setter
    calls), the state is not written, no call is made on the provider, and
    no listener is on it. *)
Theorem unmounted_is_at_rest (window : bool) (acts more : list Action) :
  lifecycle (after window acts) = Unmounted ->
  forallb from_outside more = true ->
  lifecycle (run_trace more (after window acts)) = Unmounted /\
  state (run_trace more (after window acts)) = state (after window acts) /\
  calls (run_trace more (after window acts)) = calls (after window acts) /\
  listeners (run_trace more (after window acts)) = [].
Proof.
  intros Hl Hm. pose proof (unmounted_frozen window acts Hl) as H.
  apply (frozen_run _ _ more Hm) in H.
  destruct H as (H1 & _ & _ & H4 & H5 & H6). auto.
Qed.

Lemma unmounted_is_at_rest_witness :
  let acts := [Render; Emit (EvChainChanged (Num 42)); Render; Unmount] in
  let more := [ResolveAccounts 1 (Fulfilled ["0xA"]);
               Emit (EvAccountsChanged ["0xB"]);
               Consumer (CallSetIsSearching true);
               ResolveChainId 1 (Fulfilled (Num 1))] in
  lifecycle (after true acts) = Unmounted /\
  forallb from_outside more = true /\
  awaiting (after true acts) 1 = true /\
  state (run_trace more (after true acts)) = state (after true acts) /\
  listeners (run_trace more (after true acts)) = [].
Proof.
  cbv zeta.
  assert (Hl : lifecycle (after true [Render; Emit (EvChainChanged (Num 42));
                                      Render; Unmount]) = Unmounted)
    by (vm_compute; reflexivity).
  assert (Hm : forallb from_outside
                 [ResolveAccounts 1 (Fulfilled ["0xA"]);
                  Emit (EvAccountsChanged ["0xB"]);
                  Consumer (CallSetIsSearching true);
                  ResolveChainId 1 (Fulfilled (Num 1))] = true)
    by (vm_compute; reflexivity).
  split; [exact Hl | split; [exact Hm | split; [vm_compute; reflexivity|]]].
  destruct (unmounted_is_at_rest true _ _ Hl Hm) as (_ & H2 & _ & H4).
  split; [exact H2 | exact H4].
Defined.

(** ** One handler for each event *)

(** X6. While the component is mounted on a provider, each of the three
    events has exactly one listener on the provider, so that an event runs
    its handler once; before the mount, after the unmount and without a
    provider there is none. *)
Theorem one_handler_per_event (window : bool) (acts : list Action)
    (e : ProviderEvent) :
  (lifecycle (after window acts) = Mounted -> window = true ->
   List.length (handlers_for e (after window acts)) = 1) /\
  (lifecycle (after window acts) <> Mounted \/ window = false ->
   listeners (after window acts) = []).
Proof.
  split.
  - intros Hl ->. destruct (mounted_listeners acts Hl) as (k & a & c & H).
    unfold handlers_for. rewrite H. now destruct e.
  - intros H.
    destruct (effect_invariant_after window acts) as [Hw (H1 & H2 & _)].
    destruct (quiet_after window acts) as [_ Hu].
    pose proof (provider_after window acts) as Hp.
    destruct H as [H | ->].
    + assert (Hk : cleanup (after window acts) = None).
      { destruct (lifecycle (after window acts)); auto. congruence. }
      unfold wired in Hw. now rewrite Hk in Hw.
    + unfold listeners. now destruct (provider (after false acts)).
Qed.

Lemma one_handler_per_event_witness :
  let acts := [Render; Emit (EvAccountsChanged ["0xA"]); Render] in
  lifecycle (after true acts) = Mounted /\
  List.length (handlers_for (EvAccountsChanged []) (after true acts)) = 1 /\
  listeners (after true (acts ++ [Unmount])) = [].
Proof.
  cbv zeta. split; [vm_compute; reflexivity|]. split.
  - apply (proj1 (one_handler_per_event true
                    [Render; Emit (EvAccountsChanged ["0xA"]); Render]
                    (EvAccountsChanged [])));
      [vm_compute; reflexivity | reflexivity].
  - apply (proj2 (one_handler_per_event true
                    ([Render; Emit (EvAccountsChanged ["0xA"]); Render]
                     ++ [Unmount]) (EvAccountsChanged []))).
    left. vm_compute. discriminate.
Defined.

(** ** Renders that change nothing *)

Lemma same_client_refl (c : option Client) : same_client c c = true.
Proof. destruct c as [c|]; cbn; [apply Nat.eqb_refl | reflexivity]. Qed.

Lemma same_deps_refl (d : Deps) : same_deps d d = true.
Proof.
  destruct d as [[c a] x]. cbn.
  now rewrite same_client_refl, !option_eqb_refl.
Qed.

(** A render with current memo cells and dependencies only rebuilds the
    context value. *)
Lemma render_deps_current (w : World) (client readClient : option Client) :
  deps_current w client readClient ->
  step w Render = set_data (Some (context_value w client readClient)) w.
Proof.
  intros (Hl & Hc & Hr & Hd). destruct w. cbn in *. subst.
  unfold step, exec, handle, UpProvider, useMemo, useEffect.
  cbn. unfold bind, gets, modify, ret. cbn.
  repeat (rewrite ?Object_is_refl, ?same_deps_refl, ?same_client_refl,
            ?option_eqb_refl; cbn).
  reflexivity.
Qed.

Lemma in_sync_render (w : World) : in_sync w -> step w Render = w.
Proof.
  intros (c & rc & Hd & Hdata). rewrite (render_deps_current w c rc Hd).
  destruct w. cbn in *. unfold set_data. cbn. now rewrite <- Hdata.
Qed.

Lemma useMemo_client_stores (s : State) :
  hoare (fun w => state w = s /\ lifecycle w = Mounted)
    (useMemo client_memo set_client_memo (chainId s))
    (fun c w => (state w = s /\ lifecycle w = Mounted) /\
                client_memo w = Some (chainId s, c))
    (fun _ _ => True).
Proof.
  intros w [Hs Hl]. unfold useMemo, custom.
  unfold bind, gets, modify, ret, with_provider, createClient.
  destruct (client_memo w) as [[d v]|] eqn:Hm;
    [destruct (Object_is_spec d (chainId s)) as [->|Hd]|]; cbv beta.
  1: cbn; auto.
  all: destruct (client_chain (provider w) (chainId s));
    destruct (provider w); cbn; auto.
Qed.

Lemma useMemo_readClient_stores (s : State) (m : option (number * option Client)) :
  hoare (fun w => (state w = s /\ lifecycle w = Mounted) /\ client_memo w = m)
    (useMemo readClient_memo set_readClient_memo (chainId s))
    (fun c w => ((state w = s /\ lifecycle w = Mounted) /\ client_memo w = m) /\
                readClient_memo w = Some (chainId s, c))
    (fun _ _ => True).
Proof.
  intros w [[Hs Hl] Hc]. unfold useMemo, custom.
  unfold bind, gets, modify, ret, with_provider, createClient.
  destruct (readClient_memo w) as [[d v]|] eqn:Hm;
    [destruct (Object_is_spec d (chainId s)) as [->|Hd]|]; cbv beta.
  1: cbn; auto.
  all: destruct (client_chain (provider w) (chainId s));
    destruct (provider w); cbn; auto.
Qed.

Lemma useEffect_frame (s : State) (m1 m2 : option (number * option Client))
    (dv : option ContextValue) (b : bool) (d : Deps) :
  hoare (render_frame s m1 m2 dv b) (useEffect d)
    (fun _ w => render_frame s m1 m2 dv b w /\ effect_deps w = Some d)
    (fun _ _ => True).
Proof.
  unfold useEffect.
  eapply hoare_bind with (R := fun _ => render_frame s m1 m2 dv b);
    [keeps_goal; walk|].
  intros old.
  eapply hoare_bind with
    (R := fun _ w => render_frame s m1 m2 dv b w /\ effect_deps w = Some d).
  { apply hoare_modify. intros w H. split; [exact H | reflexivity]. }
  intros u. keeps_goal. walk; try (intros; exact I); try (intros; assumption).
  all: intros w p Hp [(H1 & H2 & H3 & H4 & H5 & H6) Hd];
    rewrite Hp in H6; unfold render_frame; cbn; auto 10.
Qed.

Lemma UpProvider_in_sync :
  hoare (fun w => lifecycle w = Mounted) UpProvider (fun _ => in_sync)
    (fun _ _ => True).
Proof.
  unfold UpProvider.
  eapply hoare_bind with
    (R := fun s w => state w = s /\ lifecycle w = Mounted).
  { apply hoare_gets. auto. }
  intros s.
  eapply hoare_bind; [apply useMemo_client_stores|].
  intros client.
  eapply hoare_bind; [apply useMemo_readClient_stores|].
  intros readClient.
  eapply hoare_bind with
    (R := fun p w =>
            (((state w = s /\ lifecycle w = Mounted) /\
              client_memo w = Some (chainId s, client)) /\
             readClient_memo w = Some (chainId s, readClient)) /\
            is_some p = is_some (provider w)).
  { apply hoare_gets. auto. }
  intros p.
  eapply hoare_bind with
    (R := fun _ w =>
            render_frame s (Some (chainId s, client))
              (Some (chainId s, readClient))
              (Some {| v_provider := is_some p; v_client := client;
                       v_chainId := chainId s; v_readClient := readClient;
                       v_accounts := accounts s;
                       v_contextAccounts := contextAccounts s;
                       v_walletConnected := walletConnected s;
                       v_selectedAddress := selectedAddress s;
                       v_isSearching := isSearching s |})
              (is_some p) w).
  { apply hoare_modify. intros w ((((Hs & Hl) & Hc) & Hr) & Hp).
    unfold render_frame. cbn. auto 10. }
  intros u. eapply hoare_conseq; [apply useEffect_frame | | |];
    [intros w H; exact H | | auto].
  intros a w [(Hs & Hl & Hc & Hr & Hd & Hp) He].
  exists client, readClient. unfold deps_current, context_value.
  rewrite Hs, Hp. auto 10.
Qed.

Lemma handle_Render_in_sync :
  hoare (fun w => lifecycle w <> Unmounted) (handle Render)
    (fun _ => in_sync) (fun _ _ => True).
Proof.
  unfold handle. eapply hoare_bind.
  { apply hoare_gets with (Q := fun l w => l <> Unmounted). auto. }
  intros l. destruct l.
  - eapply hoare_bind with (R := fun _ w => lifecycle w = Mounted);
      [apply hoare_modify; reflexivity | intros u; apply UpProvider_in_sync].
  - eapply hoare_bind with (R := fun _ w => lifecycle w = Mounted);
      [apply hoare_modify; reflexivity | intros u; apply UpProvider_in_sync].
  - apply hoare_ret. intros w H. now destruct H.
Qed.

Lemma render_in_sync (window : bool) (acts : list Action) :
  lifecycle (after window acts) <> Unmounted ->
  in_sync (step (after window acts) Render).
Proof.
  intros Hl.
  destruct (handle_returns Render (after window acts)
              (effect_invariant_after window acts)) as [w' Hr].
  pose proof (handle_Render_in_sync (after window acts) Hl) as H.
  unfold step, exec. rewrite Hr in *. exact H.
Qed.

(** X7. Rendering twice in a row is rendering once: the second render
    re-creates no client, runs no cleanup and no effect, makes no call on the
    provider and builds the same context value. *)
Theorem render_is_idempotent (window : bool) (acts : list Action) :
  step (step (after window acts) Render) Render =
  step (after window acts) Render.
Proof.
  destruct (lifecycle (after window acts)) eqn:Hl.
  - apply in_sync_render, render_in_sync. congruence.
  - apply in_sync_render, render_in_sync. congruence.
  - assert (H : step (after window acts) Render = after window acts).
    { unfold step, exec, handle. evaluate Hl. reflexivity. }
    now rewrite !H.
Qed.

(** An event that keeps [chainId] and the first entries keeps the memo
    cells and the dependency array current. *)
Lemma deps_current_event (w : World) (c rc : option Client) (e : ProviderEvent) :
  deps_current w c rc -> same_first e (state w) ->
  deps_current (step w (Emit e)) c rc.
Proof.
  intros (Hl & Hc & Hr & Hd) Hs.
  assert (H : (lifecycle (step w (Emit e)) = lifecycle w /\
               client_memo (step w (Emit e)) = client_memo w /\
               readClient_memo (step w (Emit e)) = readClient_memo w /\
               effect_deps (step w (Emit e)) = effect_deps w) /\
              (chainId (state (step w (Emit e))) = chainId (state w) /\
               hd_error (accounts (state (step w (Emit e)))) =
                 hd_error (accounts (state w)) /\
               hd_error (contextAccounts (state (step w (Emit e)))) =
                 hd_error (contextAccounts (state w)))).
  { split.
    - repeat split.
      + apply (step_frame lifecycle); intros x; walk; intros; assumption.
      + apply (step_frame client_memo); intros x; walk; intros; assumption.
      + apply (step_frame readClient_memo); intros x; walk; intros; assumption.
      + apply (step_frame effect_deps); intros x; walk; intros; assumption.
    - refine (step_keeps
               (fun w' => chainId (state w') = chainId (state w) /\
                          hd_error (accounts (state w')) =
                            hd_error (accounts (state w)) /\
                          hd_error (contextAccounts (state w')) =
                            hd_error (contextAccounts (state w)))
               (fun _ w' => chainId (state w') = chainId (state w) /\
                          hd_error (accounts (state w')) =
                            hd_error (accounts (state w)) /\
                          hd_error (contextAccounts (state w')) =
                            hd_error (contextAccounts (state w)))
               (Emit e) w _ _ _); [| auto | auto].
      destruct e as [l|n|l]; cbn in Hs; walk; try (intros; assumption);
        intros w0 (H1 & H2 & H3); cbn; repeat split; congruence. }
  destruct H as [(H1 & H2 & H3 & H4) (H5 & H6 & H7)].
  unfold deps_current. rewrite H1, H2, H3, H4, H5, H6, H7. auto.
Qed.

(** X8. The effect depends on the first entries only: after a render, an
    event that changes neither [chainId] nor the first entry of its array
    (further accounts added, removed or reordered behind the first) and the
    render that follows it do not run the effect again: the listeners, the
    calls made on the provider and the runs of the effect stay as they
    were. *)
Theorem same_first_entry_keeps_effect (window : bool) (acts : list Action)
    (e : ProviderEvent) :
  lifecycle (after window acts) <> Unmounted ->
  same_first e (state (step (after window acts) Render)) ->
  provider (step (step (step (after window acts) Render) (Emit e)) Render) =
    provider (step (after window acts) Render) /\
  runs (step (step (step (after window acts) Render) (Emit e)) Render) =
    runs (step (after window acts) Render) /\
  cleanup (step (step (step (after window acts) Render) (Emit e)) Render) =
    cleanup (step (after window acts) Render).
Proof.
  intros Hl Hs.
  destruct (render_in_sync window acts Hl) as (c & rc & Hd & _).
  pose proof (deps_current_event _ c rc e Hd Hs) as Hd'.
  rewrite (render_deps_current _ c rc Hd'). cbn.
  repeat split.
  - apply (step_frame provider); intros x; walk; intros; assumption.
  - apply (step_frame runs); intros x; walk; intros; assumption.
  - apply (step_frame cleanup); intros x; walk; intros; assumption.
Qed.

Lemma same_first_entry_keeps_effect_witness :
  let acts := [Render; Emit (EvAccountsChanged ["0xA"])] in
  let e := EvAccountsChanged ["0xA"; "0xB"] in
  lifecycle (after true acts) <> Unmounted /\
  accounts (state (step (step (after true acts) Render) (Emit e))) =
    ["0xA"; "0xB"] /\
  runs (step (step (step (after true acts) Render) (Emit e)) Render) =
    runs (step (after true acts) Render).
Proof.
  cbv zeta. split; [vm_compute; discriminate|].
  split; [vm_compute; reflexivity|].
  refine (proj1 (proj2 (same_first_entry_keeps_effect true
            [Render; Emit (EvAccountsChanged ["0xA"])]
            (EvAccountsChanged ["0xA"; "0xB"]) _ _))).
  - vm_compute. discriminate.
  - vm_compute. reflexivity.
Defined.

(** ** Handlers after a render *)

Lemma option_eqb_eq (a b : option string) :
  option_eqb String.eqb a b = true -> a = b.
Proof.
  destruct a as [x|], b as [y|]; cbn; try discriminate; auto.
  intros H. apply String.eqb_eq in H. now subst.
Qed.

Lemma effect_captures (d : Deps) :
  hoare (fun w => effect_deps w = Some d) (effect d)
    (fun _ => captured_ok) (fun _ _ => True).
Proof.
  destruct d as [[c a] x]. intros w Hd. unfold effect, init_entry.
  destruct (provider w) as [p|] eqn:Hp; destruct c as [c|]; evaluate Hp;
    try rewrite update_nth_snoc;
    intros k r c' a' x' Hk Hr Hd'; cbn in Hk, Hr, Hd'; try discriminate;
    injection Hk as <-; rewrite nth_error_snoc in Hr; injection Hr as <-;
    rewrite Hd in Hd'; injection Hd' as <- <- <-; auto.
Qed.

(** The effect, started without listeners, neither throws nor loses track
    of what it captured. *)
Lemma effect_captures_total (d : Deps) :
  hoare (fun w => listeners w = [] /\ effect_deps w = Some d /\
                  lifecycle w = Mounted)
    (effect d) (fun _ => captured_ok) (fun _ _ => False).
Proof.
  eapply hoare_conseq;
    [apply (hoare_conj _ _ _ _ _ _ _
              (effect_spec d (Some d) Mounted) (effect_captures d)) | | |].
  - intros w (Hl & Hd & Hc). auto.
  - intros a w [_ H]. exact H.
  - intros e w [H _]. exact H.
Qed.

Lemma useEffect_captures (d : Deps) :
  hoare (fun w => effect_ready w /\ captured_ok w) (useEffect d)
    (fun _ => captured_ok) (fun _ _ => False).
Proof.
  unfold useEffect.
  eapply hoare_bind.
  { apply hoare_gets with
      (Q := fun old w => (wired w /\ lifecycle w = Mounted /\
                          (old = None -> cleanup w = None)) /\
                         captured_ok w /\ old = effect_deps w).
    intros w ((Hw & H1 & _ & Hl) & Hc). auto. }
  intros old. eapply hoare_bind.
  { apply hoare_modify with
      (Q := fun _ w => (wired w /\ lifecycle w = Mounted /\
                        (old = None -> cleanup w = None)) /\
                       effect_deps w = Some d /\
                       forall k r c a x,
                         cleanup w = Some k -> nth_error (runs w) k = Some r ->
                         old = Some (c, a, x) ->
                         account r = a /\ contextAccount r = x).
    intros w (Hw & Hc & Ho). cbn. split; [exact Hw | split; [reflexivity|]].
    intros k r c a x Hk Hr He. subst old. exact (Hc k r c a x Hk Hr He). }
  intros u. destruct old as [d0|].
  - destruct (same_deps d0 d) eqn:Hs.
    + apply hoare_ret. intros w (Hw & Hd & Hc) k r c a x Hk Hr He.
      rewrite Hd in He. injection He as ->.
      destruct d0 as [[c0 a0] x0]. cbn in Hs.
      apply andb_true_iff in Hs. destruct Hs as [Hs Hx].
      apply andb_true_iff in Hs. destruct Hs as [_ Ha].
      apply option_eqb_eq in Ha, Hx. subst.
      exact (Hc k r c0 a x Hk Hr eq_refl).
    + eapply hoare_bind.
      * eapply hoare_conseq;
          [apply (run_pending_cleanup_spec (Some d) Mounted) | | |].
        -- intros w ((Hw & Hl & _) & Hd & Hc). auto.
        -- intros a w H. exact H.
        -- auto.
      * intros u'. eapply hoare_conseq; [apply (effect_captures_total d) | | |].
        -- intros w (Hl & Hk & Hd & Hc). auto.
        -- intros a w H. exact H.
        -- auto.
  - eapply hoare_conseq; [apply (effect_captures_total d) | | |].
    + intros w ((Hw & Hl & H1) & Hd & Hc). repeat split; auto.
      unfold wired in Hw. now rewrite (H1 eq_refl) in Hw.
    + intros a w H. exact H.
    + auto.
Qed.

Lemma UpProvider_captures :
  hoare (fun w => effect_ready w /\ captured_ok w) UpProvider
    (fun _ => captured_ok) (fun _ _ => False).
Proof.
  unfold UpProvider.
  eapply hoare_bind with (R := fun _ w => effect_ready w /\ captured_ok w);
    [keeps_goal; walk; intros; try assumption; provider_used|].
  intros s.
  eapply hoare_bind with (R := fun _ w => effect_ready w /\ captured_ok w);
    [keeps_goal; walk; intros; try assumption; provider_used|].
  intros client.
  eapply hoare_bind with (R := fun _ w => effect_ready w /\ captured_ok w);
    [keeps_goal; walk; intros; try assumption; provider_used|].
  intros readClient.
  eapply hoare_bind with (R := fun _ w => effect_ready w /\ captured_ok w);
    [keeps_goal; walk; intros; try assumption; provider_used|].
  intros p.
  eapply hoare_bind with (R := fun _ w => effect_ready w /\ captured_ok w);
    [keeps_goal; walk; intros; try assumption; provider_used|].
  intros u. apply useEffect_captures.
Qed.

Lemma captured_render :
  hoare (fun w => effect_invariant w /\ captured_ok w) (handle Render)
    (fun _ => captured_ok) (fun _ _ => False).
Proof.
  unfold handle. eapply hoare_bind.
  { apply hoare_gets with
      (Q := fun l w => (effect_invariant w /\ captured_ok w) /\ l = lifecycle w).
    auto. }
  intros l.
  assert (Hrender : forall l0, l0 <> Unmounted ->
    hoare (fun w => (effect_invariant w /\ captured_ok w) /\ l0 = lifecycle w)
      (modify (set_lifecycle Mounted);; UpProvider)
      (fun _ => captured_ok) (fun _ _ => False)).
  { intros l0 Hl0.
    eapply hoare_bind with (R := fun _ w => effect_ready w /\ captured_ok w).
    - apply hoare_modify.
      intros w (((Hw & H1 & H2 & H3) & Hc) & Hl).
      split; [|exact Hc]. unfold effect_ready. cbn. repeat split; auto.
      intros Hd Hp. destruct l0; [| | congruence].
      + symmetry in Hl. now specialize (H1 Hl).
      + symmetry in Hl. now apply (H3 Hl).
    - intros u. apply UpProvider_captures. }
  destruct l; [apply Hrender; discriminate | apply Hrender; discriminate |].
  apply hoare_ret. now intros w [[_ Hq] _].
Qed.

Lemma captured_unmount :
  hoare (fun w => effect_invariant w /\ captured_ok w) (handle Unmount)
    (fun _ => captured_ok) (fun _ _ => False).
Proof.
  unfold handle. eapply hoare_bind.
  { apply hoare_gets with
      (Q := fun l w => (effect_invariant w /\ captured_ok w) /\ l = lifecycle w).
    auto. }
  intros l. destruct l; try (apply hoare_ret; now intros w [[_ Hq] _]).
  apply hoare_named with (f := effect_deps). intros ed.
  eapply hoare_bind.
  - eapply hoare_conseq; [apply (run_pending_cleanup_spec ed Mounted) | | |].
    + intros w ((((Hw & _) & _) & Hl) & Hd). auto.
    + intros u w H. exact H.
    + auto.
  - intros u. apply hoare_modify. intros w (_ & Hk & _).
    intros k r c a x Hk'. cbn in Hk'. congruence.
Qed.

Lemma captured_set_init (w : World) (k : nat) (s : InitState) :
  captured_ok w ->
  captured_ok
    (set_runs
       (update_nth k
          (fun r => {| mounted := mounted r; init_state := s;
                       account := account r;
                       contextAccount := contextAccount r |})
          (runs w)) w).
Proof.
  intros Hc j r c a x Hk Hr He. cbn in Hk, Hr, He.
  rewrite nth_error_update_nth in Hr.
  destruct (nth_error (runs w) j) as [r0|] eqn:Hr0;
    [|destruct (Nat.eqb j k); discriminate].
  destruct (Hc j r0 c a x Hk Hr0 He) as [H1 H2].
  destruct (Nat.eqb j k); cbn in Hr; injection Hr as <-; auto.
Qed.

Lemma captured_step (w : World) (a : Action) :
  effect_invariant w -> captured_ok w -> captured_ok (step w a).
Proof.
  intros Hinv Hq. destruct a.
  - pose proof (captured_render w (conj Hinv Hq)) as H. unfold step, exec.
    destruct (handle Render w) as [w' [u|e]]; [exact H | destruct H].
  - pose proof (captured_unmount w (conj Hinv Hq)) as H. unfold step, exec.
    destruct (handle Unmount w) as [w' [u|e]]; [exact H | destruct H].
  - eapply (step_keeps captured_ok (fun _ => captured_ok));
      [walk; intros; assumption | auto | exact Hq].
  - eapply (step_keeps captured_ok (fun _ => captured_ok)); [walk | auto | exact Hq].
    intros w0 H. destruct (provider w0); exact H.
  - eapply (step_keeps captured_ok (fun _ => captured_ok)); [walk | auto | exact Hq];
      intros; try assumption; now apply captured_set_init.
  - eapply (step_keeps captured_ok (fun _ => captured_ok)); [walk | auto | exact Hq];
      intros; try assumption; now apply captured_set_init.
  - eapply (step_keeps captured_ok (fun _ => captured_ok));
      [walk; intros; assumption | auto | exact Hq].
Qed.

Lemma captured_after (window : bool) (acts : list Action) :
  captured_ok (after window acts).
Proof.
  unfold after.
  apply (run_trace_invariant (fun w => effect_invariant w /\ captured_ok w)).
  - intros a w [Hi Hq]. split.
    + eapply step_keeps; [apply effect_invariant_step | | exact Hi].
      intros e w' [].
    + now apply captured_step.
  - split.
    + apply (effect_invariant_after window []).
    + intros k r c a x Hk. discriminate.
Qed.

Lemma after_snoc (window : bool) (acts : list Action) (a : Action) :
  after window (acts ++ [a]) = step (after window acts) a.
Proof. unfold after. now rewrite run_trace_app. Qed.

(** After a render the handlers on the provider close over the first
    entries that the arrays have. *)
Lemma handlers_fresh_after_render (acts : list Action) :
  lifecycle (after true acts) <> Unmounted ->
  handlers_fresh (step (after true acts) Render).
Proof.
  intros Hl. destruct (render_in_sync true acts Hl) as (c & rc & Hd & _).
  destruct Hd as (Hm & _ & _ & Hdeps).
  rewrite <- after_snoc in *.
  destruct (effect_invariant_after true (acts ++ [Render])) as [Hw (_ & _ & Hc)].
  destruct (Hc Hm) as [_ Hk]. specialize (Hk (provider_after true _)).
  destruct (cleanup (after true (acts ++ [Render]))) as [k|] eqn:Hcl;
    [|discriminate].
  unfold wired in Hw. rewrite Hcl in Hw. destruct Hw as (r & p & Hr & _).
  destruct (captured_after true (acts ++ [Render]) k r _ _ _ Hcl Hr Hdeps)
    as [Ha Hx].
  exists k, r. auto.
Qed.

(** X9. The counterpart of the stale handlers: when React renders before the
    provider's next event, that event is handled by handlers that have seen
    the current first entries, and a flag that agrees with the two arrays
    still agrees with them after the event. *)
Theorem flag_kept_after_render (acts : list Action) (e : ProviderEvent) :
  lifecycle (after true acts) <> Unmounted ->
  connection_reflects_arrays (state (after true acts)) ->
  handlers_fresh (step (after true acts) Render) /\
  connection_reflects_arrays
    (state (step (step (after true acts) Render) (Emit e))).
Proof.
  intros Hl Hf. pose proof (handlers_fresh_after_render acts Hl) as Hh.
  split; [exact Hh|].
  assert (Hs : state (step (after true acts) Render) = state (after true acts)).
  { apply (step_frame state); intros x; walk; intros; assumption. }
  rewrite <- after_snoc in *.
  apply fresh_handlers_keep_flag; [exact Hh | now rewrite Hs].
Qed.

Lemma flag_kept_after_render_witness :
  let acts := [Render; Emit (EvAccountsChanged ["0xA"])] in
  lifecycle (after true acts) <> Unmounted /\
  connection_reflects_arrays (state (after true acts)) /\
  walletConnected
    (state (step (step (after true acts) Render)
              (Emit (EvContextAccountsChanged ["0xC"])))) = true.
Proof.
  cbv zeta.
  assert (H1 : lifecycle (after true [Render; Emit (EvAccountsChanged ["0xA"])])
               <> Unmounted) by (vm_compute; discriminate).
  assert (H2 : connection_reflects_arrays
                 (state (after true [Render; Emit (EvAccountsChanged ["0xA"])]))).
  { vm_compute. split; [discriminate | intros [_ H]; discriminate]. }
  split; [exact H1 | split; [exact H2|]].
  destruct (flag_kept_after_render
              [Render; Emit (EvAccountsChanged ["0xA"])]
              (EvContextAccountsChanged ["0xC"]) H1 H2) as [_ H].
  apply (proj2 H). vm_compute. split; reflexivity.
Defined.

(** ** A change of chain *)

Lemma older_le (n m : nat) (c : option Client) :
  n <= m -> older n c -> older m c.
Proof. destruct c; cbn; [lia | auto]. Qed.

Lemma useMemo_client_fresh (z : number) :
  hoare fresh_oids (useMemo client_memo set_client_memo z)
    (fun c w => fresh_oids w /\ client_memo w = Some (z, c))
    (fun _ => fresh_oids).
Proof.
  intros w Hw. pose proof Hw as (H1 & H2 & H3). unfold useMemo, custom.
  unfold bind, gets, modify, ret, with_provider, createClient.
  destruct (client_memo w) as [[d v]|] eqn:Hm;
    [destruct (Object_is_spec d z) as [->|Hd]|]; cbv beta.
  1: cbn; now split.
  all: destruct (client_chain (provider w) z); destruct (provider w); cbn;
    try exact Hw;
    (split; [|reflexivity]); (split; [|split]); cbn;
    try (intros d' c' [= <- <-]; cbn; lia);
    try (intros d' c' [= <- <-]; exact I);
    intros; (eapply older_le; [|eauto]); lia.
Qed.

Lemma useMemo_readClient_fresh (z : number) (m : option (number * option Client)) :
  hoare (fun w => fresh_oids w /\ client_memo w = m)
    (useMemo readClient_memo set_readClient_memo z)
    (fun _ w => fresh_oids w /\ client_memo w = m)
    (fun _ => fresh_oids).
Proof.
  intros w [Hw Hc]. pose proof Hw as (H1 & H2 & H3). unfold useMemo, custom.
  unfold bind, gets, modify, ret, with_provider, createClient.
  destruct (readClient_memo w) as [[d v]|] eqn:Hm;
    [destruct (Object_is_spec d z) as [->|Hd]|]; cbv beta.
  1: cbn; now split.
  all: destruct (client_chain (provider w) z); destruct (provider w); cbn;
    try exact Hw;
    try (split; [|exact Hc]); (split; [|split]); cbn;
    try (intros d' c' [= <- <-]; cbn; lia);
    try (intros d' c' [= <- <-]; exact I);
    intros; (eapply older_le; [|eauto]); lia.
Qed.

Lemma UpProvider_fresh : preserves fresh_oids UpProvider.
Proof.
  unfold UpProvider, preserves, keeps.
  eapply hoare_bind with (R := fun _ => fresh_oids); [keeps_goal; walk|].
  intros s.
  eapply hoare_bind; [apply (useMemo_client_fresh (chainId s))|].
  intros client.
  eapply hoare_bind; [apply useMemo_readClient_fresh|].
  intros readClient.
  eapply hoare_bind with
    (R := fun _ w => fresh_oids w /\ client_memo w = Some (chainId s, client));
    [keeps_goal; walk|].
  intros p.
  eapply hoare_bind with
    (R := fun _ w => fresh_oids w /\ client_memo w = Some (chainId s, client)).
  { apply hoare_modify. intros w H. exact H. }
  intros u. unfold useEffect.
  eapply hoare_bind with
    (R := fun _ w => fresh_oids w /\ client_memo w = Some (chainId s, client));
    [keeps_goal; walk|].
  intros old.
  eapply hoare_bind with (R := fun _ => fresh_oids).
  { apply hoare_modify. intros w [(H1 & H2 & H3) Hc]. split; [|split]; auto.
    intros c a x [= <- _ _]. cbn. exact (H1 _ _ Hc). }
  intros u'. keeps_goal. walk; intros; assumption.
Qed.

Lemma fresh_oids_step (a : Action) : preserves fresh_oids (handle a).
Proof.
  destruct a.
  2-7: walk; intros; try assumption.
  - unfold handle. apply keeps_bind; [walk|]. intros l.
    destruct l; [| |walk].
    1-2: apply keeps_bind;
      [walk; intros; assumption | intros u; apply UpProvider_fresh].
  - destruct (provider w); assumption.
Qed.

Lemma fresh_oids_after (window : bool) (acts : list Action) :
  fresh_oids (after window acts).
Proof.
  unfold after. apply run_trace_invariant.
  - intros a w Hw.
    eapply step_keeps; [apply fresh_oids_step | intros e w' H; exact H | exact Hw].
  - split; [|split]; intros; discriminate.
Qed.

Lemma same_client_older (n : nat) (c : option Client) (ch : Chain) :
  older n c -> same_client c (Some {| chain := ch; oid := n |}) = false.
Proof.
  destruct c as [c|]; cbn; [|reflexivity].
  intros H. apply Nat.eqb_neq. lia.
Qed.

Lemma length_update_nth {A} (f : A -> A) (l : list A) (k : nat) :
  List.length (update_nth k f l) = List.length l.
Proof.
  revert k. induction l as [|x t IH]; intros [|k]; cbn; auto.
Qed.

#[local] Arguments same_client : simpl never.
#[local] Arguments Object_is : simpl never.
#[local] Arguments truthy : simpl never.

Lemma exec_bind {A B} (m : M A) (f : A -> M B) (w w1 : World) (a : A) :
  m w = (w1, Return a) -> exec (bind m f) w = exec (f a) w1.
Proof. intros H. unfold exec, bind. now rewrite H. Qed.

(** A [useMemo] whose dependency has changed to a number other than 0:
    the provider is handed to [custom] and a new client is stored. *)
Lemma useMemo_recompute (cell : World -> option (number * option Client))
    (store : option (number * option Client) -> World -> World)
    (n d0 : number) (c0 : option Client) (w : World) (p : UPClientProvider) :
  cell w = Some (d0, c0) -> d0 <> n -> n <> Num 0 -> n <> NaN ->
  provider w = Some p ->
  useMemo cell store n w =
  (store
     (Some (n, Some {| chain := if strict_equal n (Num 42) then lukso
                                else luksoTestnet;
                       oid := next_oid w |}))
     (set_next_oid (S (next_oid w))
        (set_provider (Some (log_use (PassedTo "custom") p)) w)),
   Return (Some {| chain := if strict_equal n (Num 42) then lukso
                            else luksoTestnet;
                   oid := next_oid w |})).
Proof.
  intros Hc Hne Hz Hnan Hp. unfold useMemo, bind, gets, modify, ret.
  rewrite Hc. destruct (Object_is_spec d0 n) as [He|_]; [congruence|].
  unfold client_chain. rewrite Hp.
  rewrite (proj2 (truthy_spec n) (conj Hz Hnan)).
  cbn [is_some andb]. unfold custom, with_provider, createClient.
  rewrite Hp. reflexivity.
Qed.

Lemma same_deps_client (c1 c2 : option Client) (a1 a2 x1 x2 : option Address) :
  same_client c1 c2 = false -> same_deps (c1, a1, x1) (c2, a2, x2) = false.
Proof. intros H. unfold same_deps. now rewrite H. Qed.

(** The cleanup of run [k], whose three handlers are the listeners on the
    provider. *)
Lemma effect_cleanup_exec (w : World) (p : UPClientProvider) (k : nat)
    (r : EffectRun) :
  provider w = Some p -> nth_error (runs w) k = Some r ->
  p_listeners p = registered k (account r) (contextAccount r) ->
  exists w1 p1,
    effect_cleanup k w = (w1, Return tt) /\
    provider w1 = Some p1 /\ p_listeners p1 = [] /\
    p_calls p1 = p_calls p ++ [CallRemoveListener "accountsChanged";
                               CallRemoveListener "contextAccountsChanged";
                               CallRemoveListener "chainChanged"] /\
    runs w1 = update_nth k
                (fun r0 => {| mounted := false; init_state := init_state r0;
                              account := account r0;
                              contextAccount := contextAccount r0 |}) (runs w) /\
    state w1 = state w.
Proof.
  intros Hp Hr Hreg. unfold effect_cleanup. evaluate Hp. rewrite Hr. evaluate Hp.
  rewrite Hreg. unfold is_listener. cbn.
  repeat (rewrite ?Nat.eqb_refl, ?option_eqb_refl; cbn).
  do 2 eexists. split; [reflexivity|]. cbn.
  split; [reflexivity|]. cbn. rewrite <- !app_assoc.
  repeat split; reflexivity.
Qed.

(** A run of the effect with a client, on a provider without listeners. *)
Lemma effect_exec (w : World) (p : UPClientProvider) (c : Client)
    (a x : option Address) :
  provider w = Some p -> p_listeners p = [] ->
  exists w2,
    effect (Some c, a, x) w = (w2, Return tt) /\
    cleanup w2 = Some (List.length (runs w)) /\
    runs w2 = runs w ++ [{| mounted := true; init_state := AwaitAccounts;
                            account := a; contextAccount := x |}] /\
    calls w2 = p_calls p ++ [CallRequest "eth_accounts";
                             CallOn "accountsChanged"; CallOn "chainChanged";
                             CallOn "contextAccountsChanged"] /\
    listeners w2 = registered (List.length (runs w)) a x /\
    state w2 = state w.
Proof.
  intros Hp Hl. unfold effect, init_entry. evaluate Hp.
  rewrite update_nth_snoc. unfold calls, listeners.
  eexists. split; [reflexivity|]. cbn. rewrite Hl, <- !app_assoc.
  repeat split; reflexivity.
Qed.

(** An effect whose dependencies have changed, with a client: the cleanup
    of the current run, then a new run that asks for the accounts and
    registers its handlers. *)
Lemma useEffect_rerun (w : World) (p : UPClientProvider) (k : nat)
    (r : EffectRun) (d0 : Deps) (c : Client) (a x : option Address) :
  effect_deps w = Some d0 -> same_deps d0 (Some c, a, x) = false ->
  provider w = Some p -> cleanup w = Some k ->
  nth_error (runs w) k = Some r ->
  p_listeners p = registered k (account r) (contextAccount r) ->
  cleanup (exec (useEffect (Some c, a, x)) w) = Some (List.length (runs w)) /\
  runs (exec (useEffect (Some c, a, x)) w) =
    update_nth k (fun r0 => {| mounted := false; init_state := init_state r0;
                               account := account r0;
                               contextAccount := contextAccount r0 |}) (runs w)
    ++ [{| mounted := true; init_state := AwaitAccounts;
           account := a; contextAccount := x |}] /\
  calls (exec (useEffect (Some c, a, x)) w) =
    calls w ++ [CallRemoveListener "accountsChanged";
                CallRemoveListener "contextAccountsChanged";
                CallRemoveListener "chainChanged";
                CallRequest "eth_accounts";
                CallOn "accountsChanged"; CallOn "chainChanged";
                CallOn "contextAccountsChanged"] /\
  listeners (exec (useEffect (Some c, a, x)) w) =
    registered (List.length (runs w)) a x /\
  state (exec (useEffect (Some c, a, x)) w) = state w.
Proof.
  intros Hd Hs Hp Hk Hr Hreg.
  destruct (effect_cleanup_exec
              (set_effect_deps (@Some Deps (Some c, a, x)) w) p k r Hp Hr Hreg)
    as (w1 & p1 & E1 & Hp1 & Hl1 & Hc1 & Hr1 & Hs1).
  destruct (effect_exec (set_cleanup None w1) p1 c a x Hp1 Hl1)
    as (w2 & E2 & H1 & H2 & H3 & H4 & H5).
  assert (E : exec (useEffect (Some c, a, x)) w = w2).
  { unfold exec, useEffect, run_pending_cleanup, bind, gets, modify, ret.
    rewrite Hd, Hs.
    change (cleanup (set_effect_deps (Some (Some c, a, x)) w))
      with (cleanup w).
    rewrite Hk. cbv beta. rewrite E1. cbv beta iota. rewrite E2.
    reflexivity. }
  rewrite E. cbn in H1, H2, H4, H5, Hr1, Hs1.
  rewrite H1, H2, H3, H4, H5, Hr1, Hs1, Hc1.
  rewrite (length_update_nth _ (runs w) k).
  unfold calls. rewrite Hp, <- !app_assoc. repeat split; reflexivity.
Qed.

(** A render that finds a new [chainId], a number other than 0: new clients, the cleanup
    of the current run, and a new run of the effect that asks for the
    accounts. *)
Lemma render_new_chain (w : World) (p : UPClientProvider) (k : nat)
    (r : EffectRun) (d0 : number) (c0 rc0 : option Client) (a0 x0 : option Address) :
  lifecycle w = Mounted -> provider w = Some p -> cleanup w = Some k ->
  nth_error (runs w) k = Some r ->
  p_listeners p = registered k (account r) (contextAccount r) ->
  client_memo w = Some (d0, c0) -> readClient_memo w = Some (d0, rc0) ->
  effect_deps w = Some (c0, a0, x0) -> older (next_oid w) c0 ->
  d0 <> chainId (state w) ->
  chainId (state w) <> Num 0 -> chainId (state w) <> NaN ->
  cleanup (step w Render) = Some (List.length (runs w)) /\
  runs (step w Render) =
    update_nth k (fun r0 => {| mounted := false; init_state := init_state r0;
                               account := account r0;
                               contextAccount := contextAccount r0 |}) (runs w)
    ++ [{| mounted := true; init_state := AwaitAccounts;
           account := hd_error (accounts (state w));
           contextAccount := hd_error (contextAccounts (state w)) |}] /\
  calls (step w Render) =
    calls w ++ [CallRemoveListener "accountsChanged";
                CallRemoveListener "contextAccountsChanged";
                CallRemoveListener "chainChanged";
                CallRequest "eth_accounts";
                CallOn "accountsChanged"; CallOn "chainChanged";
                CallOn "contextAccountsChanged"] /\
  listeners (step w Render) =
    registered (List.length (runs w)) (hd_error (accounts (state w)))
      (hd_error (contextAccounts (state w))) /\
  state (step w Render) = state w.
Proof.
  intros Hl Hp Hk Hr Hreg Hc Hrc Hd Hold Hne Hz Hnan.
  remember (step w Render) as w' eqn:E.
  unfold step, handle in E.
  rewrite (exec_bind _ _ _ _ _ (eq_refl : gets lifecycle w = (w, Return _)))
    in E.
  rewrite Hl in E.
  rewrite (exec_bind _ _ _ _ _
             (eq_refl : modify (set_lifecycle Mounted) w = (_, Return tt)))
    in E.
  unfold UpProvider in E.
  rewrite (exec_bind _ _ _ _ _
             (eq_refl : gets state (set_lifecycle Mounted w) = (_, Return _)))
    in E.
  cbv beta zeta in E.
  rewrite (exec_bind _ _ _ _ _
             (useMemo_recompute client_memo set_client_memo _ d0 c0
                (set_lifecycle Mounted w) p Hc Hne Hz Hnan Hp)) in E.
  match type of E with
  | context [exec _ ?W] =>
      rewrite (exec_bind _ _ _ _ _
                 (useMemo_recompute readClient_memo set_readClient_memo _ d0 rc0
                    W (log_use (PassedTo "custom") p) Hrc Hne Hz Hnan eq_refl))
        in E
  end.
  match type of E with
  | context [exec _ ?W] =>
      rewrite (exec_bind _ _ _ _ _ (eq_refl : gets provider W = (_, Return _)))
        in E
  end.
  match type of E with
  | context [exec (bind (modify ?f) _) ?W] =>
      rewrite (exec_bind _ _ _ _ _ (eq_refl : modify f W = (_, Return tt)))
        in E
  end.
  match type of E with
  | context [exec (useEffect (Some ?cl, ?a, ?x)) ?W] =>
      pose proof (useEffect_rerun W (log_use (PassedTo "custom")
                                       (log_use (PassedTo "custom") p))
                    k r (c0, a0, x0) cl a x Hd
                    (same_deps_client c0 (Some cl) a0 a x0 x
                       (same_client_older (next_oid w) c0 (chain cl) Hold))
                    eq_refl Hk Hr Hreg) as H
  end.
  rewrite <- E in H. clear E.
  unfold calls in H |- *. cbn in H. rewrite Hp. exact H.
Qed.

(** X10. How the queries of [init] come about: after a render, a
    [chainChanged] event that brings a new chain id, a number other than 0
    ([NaN] is no number), and the render
    that follows it run the cleanup of the current run and start a new run of
    the effect, which is suspended at its request for the accounts.  The
    calls made on the provider are the three removals, [eth_accounts] and the
    three subscriptions, in this order. *)
Theorem chain_change_requeries (acts : list Action) (n : number) :
  lifecycle (after true acts) <> Unmounted ->
  n <> Num 0 -> n <> NaN ->
  n <> chainId (state (step (after true acts) Render)) ->
  chainId (state (step (step (step (after true acts) Render)
                          (Emit (EvChainChanged n))) Render)) = n /\
  cleanup (step (step (step (after true acts) Render)
                   (Emit (EvChainChanged n))) Render) =
    Some (List.length (runs (step (after true acts) Render))) /\
  awaiting (step (step (step (after true acts) Render)
                    (Emit (EvChainChanged n))) Render)
    (List.length (runs (step (after true acts) Render))) = true /\
  calls (step (step (step (after true acts) Render)
                 (Emit (EvChainChanged n))) Render) =
    calls (step (after true acts) Render) ++
    [CallRemoveListener "accountsChanged";
     CallRemoveListener "contextAccountsChanged";
     CallRemoveListener "chainChanged";
     CallRequest "eth_accounts";
     CallOn "accountsChanged"; CallOn "chainChanged";
     CallOn "contextAccountsChanged"].
Proof.
  intros Hl Hn Hnan Hne.
  destruct (render_in_sync true acts Hl) as (c & rc & (Hm & Hc & Hrc & Hd) & _).
  rewrite <- after_snoc in *.
  set (w := after true (acts ++ [Render])) in *.
  destruct (effect_invariant_after true (acts ++ [Render])) as [Hw (_ & _ & Hcp)].
  fold w in Hw, Hcp.
  destruct (Hcp Hm) as [_ Hk]. specialize (Hk (provider_after true _)).
  destruct (cleanup w) as [k|] eqn:Hcl; [|discriminate].
  unfold wired in Hw. rewrite Hcl in Hw.
  destruct Hw as (r & p & Hr & _ & Hp & Hreg).
  destruct (fresh_oids_after true (acts ++ [Render])) as (_ & _ & Hf).
  fold w in Hf. specialize (Hf _ _ _ Hd).
  assert (He : step w (Emit (EvChainChanged n)) =
               set_state {| chainId := n; accounts := accounts (state w);
                            contextAccounts := contextAccounts (state w);
                            walletConnected := walletConnected (state w);
                            selectedAddress := selectedAddress (state w);
                            isSearching := isSearching (state w) |} w).
  { unfold step, exec, handle, emit. evaluate Hp. rewrite Hreg. reflexivity. }
  rewrite He.
  match goal with
  | |- context [step ?w1 Render] =>
      destruct (render_new_chain w1 p k r (chainId (state w)) c rc _ _
                  Hm Hp Hcl Hr Hreg Hc Hrc Hd Hf (not_eq_sym Hne) Hn Hnan)
        as (H1 & H2 & H3 & H4 & H5)
  end.
  cbn in H1, H2, H3, H5. unfold calls in H3 |- *. cbn in H3.
  repeat split.
  - now rewrite H5.
  - exact H1.
  - unfold awaiting. rewrite H2.
    rewrite <- (length_update_nth
                  (fun r0 => {| mounted := false; init_state := init_state r0;
                                account := account r0;
                                contextAccount := contextAccount r0 |})
                  (runs w) k).
    now rewrite nth_error_snoc.
  - exact H3.
Qed.

Lemma chain_change_requeries_witness :
  let acts := [Render; Emit (EvAccountsChanged ["0xA"])] in
  let w := step (step (step (after true acts) Render)
                   (Emit (EvChainChanged (Num 42)))) Render in
  lifecycle (after true acts) <> Unmounted /\
  chainId (state w) = Num 42 /\ awaiting w 2 = true.
Proof.
  cbv zeta.
  assert (H1 : lifecycle (after true [Render; Emit (EvAccountsChanged ["0xA"])])
               <> Unmounted) by (vm_compute; discriminate).
  assert (Hz : Num 42 <> Num 0) by discriminate.
  assert (Hn : Num 42 <> NaN) by discriminate.
  assert (Hc : Num 42 <>
               chainId (state (step (after true
                                       [Render; Emit (EvAccountsChanged ["0xA"])])
                                 Render)))
    by (vm_compute; discriminate).
  assert (Hlen : List.length
                   (runs (step (after true
                                  [Render; Emit (EvAccountsChanged ["0xA"])])
                            Render)) = 2)
    by (vm_compute; reflexivity).
  split; [exact H1|].
  pose proof (chain_change_requeries
                [Render; Emit (EvAccountsChanged ["0xA"])] (Num 42) H1 Hz Hn Hc)
    as (H2 & _ & H3 & _).
  rewrite Hlen in H3.
  split; [exact H2 | exact H3].
Defined.


(** ** Without a provider *)

Lemma inert_effect (d : Deps) : preserves inert (effect d).
Proof.
  destruct d as [[c a] x].
  intros w (Hp & Hk & Hs & Hr & Hc & Hrc & Hd).
  unfold effect, init_entry. destruct c as [c|]; evaluate Hp;
    rewrite update_nth_snoc;
    (split; [exact Hp | split; [reflexivity | split; [exact Hs |]]]);
    (split; [| auto]);
    intros k r Hkr; cbn in Hkr;
    (destruct (Nat.lt_ge_cases k (List.length (runs w))) as [Hlt|Hge];
     [ rewrite nth_error_app1 in Hkr by exact Hlt; exact (Hr k r Hkr)
     | rewrite nth_error_app2 in Hkr by exact Hge;
       destruct (k - List.length (runs w)) as [|[|i]];
       cbn in Hkr; try discriminate; injection Hkr as <-; reflexivity ]).
Qed.

Lemma inert_useMemo_client (z : number) :
  hoare inert (useMemo client_memo set_client_memo z)
    (fun c w => inert w /\ c = None) (fun _ => inert).
Proof.
  intros w Hw. pose proof Hw as (Hp & Hk & Hs & Hr & Hc & Hrc & Hd).
  unfold useMemo, client_chain. evaluate Hp.
  destruct (client_memo w) as [[d v]|] eqn:Hm.
  1: destruct (Object_is_spec d z) as [->|Hne]; cbn;
       [split; [exact Hw | exact (Hc _ _ eq_refl)]|].
  all: rewrite Hp; cbn; (split; [|reflexivity]); unfold inert; cbn;
    repeat (split; [assumption|]); (split; [|split; assumption]);
    intros d' v' [= <- <-]; reflexivity.
Qed.

Lemma inert_useMemo_readClient (z : number) :
  hoare inert (useMemo readClient_memo set_readClient_memo z)
    (fun c w => inert w /\ c = None) (fun _ => inert).
Proof.
  intros w Hw. pose proof Hw as (Hp & Hk & Hs & Hr & Hc & Hrc & Hd).
  unfold useMemo, client_chain. evaluate Hp.
  destruct (readClient_memo w) as [[d v]|] eqn:Hm.
  1: destruct (Object_is_spec d z) as [->|Hne]; cbn;
       [split; [exact Hw | exact (Hrc _ _ eq_refl)]|].
  all: rewrite Hp; cbn; (split; [|reflexivity]); unfold inert; cbn;
    repeat (split; [assumption|]); (split; [|assumption]);
    intros d' v' [= <- <-]; reflexivity.
Qed.

Lemma inert_set_mounted (w : World) (k : nat) (b : bool) :
  inert w ->
  inert (set_runs
           (update_nth k
              (fun r => {| mounted := b; init_state := init_state r;
                           account := account r;
                           contextAccount := contextAccount r |})
              (runs w)) w).
Proof.
  intros (Hp & Hk & Hs & Hr & Hrest). unfold inert. cbn.
  repeat (split; [assumption|]). split; [|exact Hrest].
  intros j r Hj. rewrite nth_error_update_nth in Hj.
  destruct (nth_error (runs w) j) as [r0|] eqn:Hr0;
    [|destruct (Nat.eqb j k); discriminate].
  specialize (Hr j r0 Hr0).
  destruct (Nat.eqb j k); cbn in Hj; injection Hj as <-; exact Hr.
Qed.

Lemma inert_set_cleanup (w : World) : inert w -> inert (set_cleanup None w).
Proof.
  intros (Hp & Hk & Hrest). unfold inert. cbn. auto.
Qed.

Lemma inert_no_provider (w : World) (p : UPClientProvider) (P : Prop) :
  provider w = Some p -> inert w -> P.
Proof. intros Hp (Hn & _). congruence. Qed.

Lemma inert_useEffect (d : Deps) : preserves inert (useEffect d).
Proof.
  unfold useEffect, preserves.
  apply keeps_bind; [walk|]. intros old.
  apply keeps_bind; [walk; intros; assumption|]. intros u.
  destruct old as [d0|]; [|apply inert_effect].
  destruct (same_deps d0 d); [walk|].
  apply keeps_bind; [|intros u'; apply inert_effect].
  walk; intros; try assumption;
    try (eapply inert_no_provider; eassumption);
    try (now apply inert_set_mounted); try (now apply inert_set_cleanup).
Qed.

Lemma inert_UpProvider : preserves inert UpProvider.
Proof.
  unfold UpProvider, preserves, keeps.
  eapply hoare_bind with
    (R := fun s w => inert w /\ wallet_state s = (Num 0, [], [], false)).
  { apply hoare_gets. intros w Hw. split; [exact Hw|].
    now destruct Hw as (_ & _ & Hs & _). }
  intros s. apply hoare_pure. intros Hs.
  eapply hoare_bind; [apply inert_useMemo_client|].
  intros client. apply hoare_pure. intros ->.
  eapply hoare_bind; [apply inert_useMemo_readClient|].
  intros readClient. apply hoare_pure. intros ->.
  eapply hoare_bind with (R := fun p w => inert w /\ p = None).
  { apply hoare_gets. intros w Hw. split; [exact Hw|]. now destruct Hw. }
  intros p. apply hoare_pure. intros ->.
  eapply hoare_bind with (R := fun _ => inert).
  { apply hoare_modify. intros w (Hp & Hk & Hw & Hr & Hc & Hrc & Hd).
    unfold inert. cbn. repeat (split; [assumption|]).
    intros d [= <-]. cbn. unfold wallet_state in Hs. auto. }
  intros u. apply inert_useEffect.
Qed.

Lemma inert_step (w : World) (a : Action) : inert w -> inert (step w a).
Proof.
  intros Hw. pose proof Hw as (Hp & Hk & Hs & Hr & Hrest).
  destruct a.
  - (* Render *)
    eapply (step_keeps inert (fun _ => inert)); [| auto | exact Hw].
    unfold handle. apply keeps_bind; [walk|]. intros l.
    destruct l; [| |walk].
    1-2: apply keeps_bind;
      [walk; intros; assumption | intros u; apply inert_UpProvider].
  - (* Unmount *)
    eapply (step_keeps inert (fun _ => inert)); [| auto | exact Hw].
    walk; intros; try assumption;
      try (eapply inert_no_provider; eassumption);
      try (now apply inert_set_mounted); try (now apply inert_set_cleanup).
  - (* Emit *)
    unfold step, exec, handle, emit. evaluate Hp. exact Hw.
  - (* ProviderContext *)
    unfold step, exec, handle. evaluate Hp. exact Hw.
  - (* ResolveAccounts *)
    unfold step, exec, handle, resume_accounts. evaluate Hp.
    destruct (nth_error (runs w) k) as [[m i x y]|] eqn:Hk'; [|exact Hw].
    specialize (Hr k _ Hk'). destruct i; try discriminate; exact Hw.
  - (* ResolveChainId *)
    unfold step, exec, handle, resume_chainId. evaluate Hp.
    destruct (nth_error (runs w) k) as [[m i x y]|] eqn:Hk'; [|exact Hw].
    specialize (Hr k _ Hk'). destruct i; try discriminate; exact Hw.
  - (* Consumer *)
    eapply (step_keeps inert (fun _ => inert)); [| auto | exact Hw].
    walk; intros; assumption.
Qed.

Lemma inert_after (acts : list Action) : inert (after false acts).
Proof.
  unfold after. apply run_trace_invariant.
  - intros a w. apply inert_step.
  - unfold inert. cbn. repeat (split; [reflexivity|]).
    split; [intros [|k] r H; discriminate|].
    repeat split; intros; discriminate.
Qed.

(** X11. Where [window] is undefined (the server render) the provider is
    [null] and the wallet side of the component never moves: along every
    history [chainId], [accounts], [contextAccounts] and [walletConnected]
    keep their initial values, no run of [init] is ever waiting for an
    answer, and every context value carries no provider and no client. *)
Theorem no_provider_is_inert (acts : list Action) :
  wallet_state (state (after false acts)) = (Num 0, [], [], false) /\
  (forall k, awaiting (after false acts) k = false) /\
  (forall d, data (after false acts) = Some d ->
     v_provider d = false /\ v_client d = None /\ v_readClient d = None /\
     v_walletConnected d = false) /\
  calls (after false acts) = [] /\ listeners (after false acts) = [].
Proof.
  destruct (inert_after acts) as (Hp & Hk & Hs & Hr & Hc & Hrc & Hd).
  split; [exact Hs|]. split; [|split; [|split]].
  - intros k. unfold awaiting.
    destruct (nth_error (runs (after false acts)) k) as [r|] eqn:Hk';
      [|reflexivity].
    specialize (Hr k r Hk'). unfold suspended in Hr.
    destruct r as [m i a c]. cbn in Hr. now destruct i.
  - intros d H. destruct (Hd d H) as (H1 & H2 & H3 & H4).
    injection H4 as _ _ _ H4. auto.
  - unfold calls. now rewrite Hp.
  - unfold listeners. now rewrite Hp.
Qed.

(** ** Empty lists *)

(** X12. An empty list disconnects, whatever the handlers have captured:
    while the component is mounted on a provider, an [accountsChanged] or a
    [contextAccountsChanged] event that carries no address leaves
    [walletConnected] false and the array empty. *)
Theorem empty_list_disconnects (acts : list Action) :
  lifecycle (after true acts) = Mounted ->
  (walletConnected
     (state (step (after true acts) (Emit (EvAccountsChanged [])))) = false /\
   accounts (state (step (after true acts) (Emit (EvAccountsChanged [])))) = []) /\
  (walletConnected
     (state (step (after true acts) (Emit (EvContextAccountsChanged []))))
     = false /\
   contextAccounts
     (state (step (after true acts) (Emit (EvContextAccountsChanged [])))) = []).
Proof.
  intros Hl. destruct (mounted_listeners acts Hl) as (k & a & c & Hreg).
  unfold listeners in Hreg.
  destruct (provider (after true acts)) as [p|] eqn:Hp; [|discriminate].
  unfold step, exec, handle, emit.
  repeat split; evaluate Hp; rewrite Hreg; cbn; try reflexivity.
  apply andb_false_r.
Qed.

Lemma empty_list_disconnects_witness :
  let acts := [Render; Emit (EvAccountsChanged ["0xA"]); Render;
               Emit (EvContextAccountsChanged ["0xC"]); Render] in
  lifecycle (after true acts) = Mounted /\
  walletConnected (state (after true acts)) = true /\
  walletConnected
    (state (step (after true acts) (Emit (EvAccountsChanged [])))) = false.
Proof.
  cbv zeta.
  assert (H : lifecycle
                (after true [Render; Emit (EvAccountsChanged ["0xA"]); Render;
                             Emit (EvContextAccountsChanged ["0xC"]); Render])
              = Mounted) by (vm_compute; reflexivity).
  split; [exact H | split; [vm_compute; reflexivity|]].
  exact (proj1 (proj1 (empty_list_disconnects _ H))).
Defined.

(** ** The promise of [init] *)

Lemma returns_ok_entry (c : option Client) : returns_ok (init_entry c).
Proof.
  intros w. unfold init_entry.
  destruct c; destruct (provider w) eqn:Hp; evaluate Hp; discriminate.
Qed.

Lemma returns_ok_after_accounts (k : nat) (r : Result (list Address)) :
  returns_ok (init_after_accounts k r).
Proof.
  intros w. unfold init_after_accounts, get_mounted.
  destruct r as [l0|e0]; [|exact I].
  destruct (nth_error (runs w) k) as [[[] i a c]|] eqn:Hr;
    destruct (provider w) eqn:Hp;
    repeat (evaluate Hp; rewrite ?Hr; cbn);
    try exact I; intros; discriminate.
Qed.

Lemma returns_ok_after_chainId (k : nat) (l : list Address) (r : Result number) :
  returns_ok (init_after_chainId k l r).
Proof.
  intros w. unfold init_after_chainId, get_mounted.
  destruct r as [n0|e0]; [|exact I].
  destruct (nth_error (runs w) k) as [[[] i a c]|] eqn:Hr;
    destruct (provider w) eqn:Hp;
    repeat (evaluate Hp; rewrite ?Hr; cbn);
    try exact I; intros; discriminate.
Qed.

Lemma no_rejection_set_init (w : World) (k : nat) (s : InitState) :
  (forall e, s <> Settled (Throw e)) -> no_rejection w ->
  no_rejection
    (set_runs
       (update_nth k
          (fun r => {| mounted := mounted r; init_state := s;
                       account := account r;
                       contextAccount := contextAccount r |})
          (runs w)) w).
Proof.
  intros Hs Hw j r e Hj. cbn in Hj. rewrite nth_error_update_nth in Hj.
  destruct (nth_error (runs w) j) as [r0|] eqn:Hr0;
    [|destruct (Nat.eqb j k); discriminate].
  destruct (Nat.eqb j k); cbn in Hj; injection Hj as <-; cbn;
    [apply Hs | exact (Hw j r0 e Hr0)].
Qed.

(** One stretch of [init] inside its [try]/[catch] never stores a thrown
    completion. *)
Lemma keeps_init (E : JsError -> World -> Prop) (k : nat) (body : M InitState) :
  preserves no_rejection body -> returns_ok body ->
  keeps no_rejection E (init k body).
Proof.
  intros Hp Ho w Hw. unfold init, bind, async, try_catch.
  specialize (Hp w Hw). specialize (Ho w).
  destruct (body w) as [w1 [s|e]]; cbn.
  - now apply no_rejection_set_init.
  - apply (no_rejection_set_init (set_console (console w1 ++ [e]) w1));
      [discriminate | exact Hp].
Qed.

Lemma no_rejection_new_run (E : JsError -> World -> Prop) (a c : option Address) :
  keeps no_rejection E (new_run a c).
Proof.
  intros w Hw k r e Hk. cbn in Hk.
  destruct (Nat.lt_ge_cases k (List.length (runs w))) as [Hlt|Hge].
  - rewrite nth_error_app1 in Hk by exact Hlt. exact (Hw k r e Hk).
  - rewrite nth_error_app2 in Hk by exact Hge.
    destruct (k - List.length (runs w)) as [|[|i]]; cbn in Hk;
      try discriminate. injection Hk as <-. discriminate.
Qed.

Lemma no_rejection_set_mounted (w : World) (k : nat) (b : bool) :
  no_rejection w ->
  no_rejection
    (set_runs
       (update_nth k
          (fun r => {| mounted := b; init_state := init_state r;
                       account := account r;
                       contextAccount := contextAccount r |})
          (runs w)) w).
Proof.
  intros Hw j r e Hj. cbn in Hj. rewrite nth_error_update_nth in Hj.
  destruct (nth_error (runs w) j) as [r0|] eqn:Hr0;
    [|destruct (Nat.eqb j k); discriminate].
  destruct (Nat.eqb j k); cbn in Hj; injection Hj as <-; cbn;
    exact (Hw j r0 e Hr0).
Qed.

Ltac walk_init :=
  lazymatch goal with
  | |- preserves _ _ => unfold preserves; walk_init
  | |- keeps _ _ (init _ _) =>
      apply keeps_init;
      [ walk
      | first [ apply returns_ok_entry | apply returns_ok_after_accounts
              | apply returns_ok_after_chainId ] ]
  | |- keeps _ _ (bind _ _) => apply keeps_bind; [walk_init | intros ?; walk_init]
  | |- keeps _ _ (ret _) => apply keeps_ret
  | |- keeps _ _ (gets _) => apply keeps_gets
  | |- keeps _ _ (modify _) => apply keeps_modify
  | |- keeps _ _ (with_provider _) => apply keeps_with_provider
  | |- keeps _ _ (new_run _ _) => apply no_rejection_new_run
  | |- keeps _ _ (createClient _) => apply keeps_createClient
  | |- keeps _ _ (for_each _ _) => apply keeps_for_each; intros ?; walk_init
  | |- keeps _ _ (match ?x with _ => _ end) => destruct x; walk_init
  | |- keeps _ _ ?m => let h := head_of m in unfold h; cbv beta zeta; walk_init
  end.

Lemma no_rejection_step (a : Action) : preserves no_rejection (handle a).
Proof.
  destruct a; walk_init; intros; try assumption;
    try (now apply no_rejection_set_mounted).
  destruct (provider w); assumption.
Qed.

(** X13. [init] is called without a handler for its promise, and it needs
    none: along every history, no run of [init] has ended by throwing, be it
    on a rejected request or on a provider that is [null]. *)
Theorem init_never_rejects (window : bool) (acts : list Action)
    (k : nat) (r : EffectRun) (e : JsError) :
  nth_error (runs (after window acts)) k = Some r ->
  init_state r <> Settled (Throw e).
Proof.
  revert k r e. change (no_rejection (after window acts)).
  unfold after. apply run_trace_invariant.
  - intros a w Hw.
    eapply step_keeps; [apply no_rejection_step | intros x w' H; exact H | exact Hw].
  - intros [|k] r e H; discriminate.
Qed.

Lemma init_never_rejects_witness :
  let acts := [Render; Emit (EvChainChanged (Num 42)); Render;
               ResolveAccounts 1 (Rejected "boom")] in
  nth_error (runs (after true acts)) 1 =
    Some {| mounted := true; init_state := Settled Normal;
            account := None; contextAccount := None |} /\
  console (after true acts) = ["boom"] /\
  Settled Normal <> Settled (Throw "boom").
Proof.
  cbv zeta.
  assert (H : nth_error
                (runs (after true [Render; Emit (EvChainChanged (Num 42)); Render;
                                   ResolveAccounts 1 (Rejected "boom")])) 1 =
              Some {| mounted := true; init_state := Settled Normal;
                      account := None; contextAccount := None |})
    by (vm_compute; reflexivity).
  split; [exact H | split; [vm_compute; reflexivity|]].
  exact (init_never_rejects true _ 1 _ "boom" H).
Defined.

